(** * transform.py: Transverse Mercator and geocentric conversions

    A shallow embedding of [transform.py] (geo2grid, grid2geo, xyz2llh,
    llh2xyz and the module-level ellipsoid and Krueger-series constants).

    Numbers.  The Python code computes with [float], [Decimal] and [int].
    Here every [float] and [Decimal] value is an exact real ([R]) and every
    [int] is a [Z]: the model is the exact-arithmetic reading of the code,
    with no rounding of intermediate results.  What the code
    does to control flow is kept as written: [/] raises [ZeroDivisionError]
    on a zero divisor, [math.sqrt] and [math.log] raise [ValueError] outside
    their domain, [int()] truncates toward zero, [round(x, k)] rounds to the
    nearest multiple of [10^-k] with ties to even, and the [while] loop of
    xyz2llh runs on fuel.  The squares [x**2] and [y**2] of xyz2llh, which
    decide whether the function divides by zero, overflow and underflow as
    doubles do; no other overflow is modelled.  Statements that depend on a
    result of double-precision rounding (a longitude within rounding of a
    zone edge, a hyperbolic function near its overflow, a point next to the
    polar axis) carry the range in which the exact reading and the doubles
    agree as a hypothesis. *)

From Stdlib Require Import Reals Lra Lia ZArith Psatz.

Open Scope R_scope.

(** ** Exceptions and the error monad *)

Inductive py_error : Set :=
| ZeroDivisionError
| ValueError
| OverflowError.

Inductive result (T : Type) : Type :=
| Ok (v : T)
| Raise (e : py_error).

Arguments Ok {T} v.
Arguments Raise {T} e.

Definition bind {T U : Type} (m : result T) (k : T -> result U) : result U :=
  match m with
  | Ok v => k v
  | Raise e => Raise e
  end.

Notation "x <- m ;; k" := (bind m (fun x => k))
  (at level 61, m at next level, right associativity).

(** ** The Python primitives the module uses *)

Module Py.

(** [x / y] on floats. *)
Definition div (x y : R) : result R :=
  if Req_dec_T y 0 then Raise ZeroDivisionError else Ok (x / y).

(** [math.sqrt]. *)
Definition sqrt (x : R) : result R :=
  if Rlt_dec x 0 then Raise ValueError else Ok (R_sqrt.sqrt x).

(** [math.log]. *)
Definition log (x : R) : result R :=
  if Rle_dec x 0 then Raise ValueError else Ok (ln x).

(** [int(x)] on a float: truncation toward zero. *)
Definition int (x : R) : Z :=
  if Rle_dec 0 x then Zfloor x else Zceil x.

(** [x ** 2] on a float.  A square above the largest double raises
    [OverflowError]; a square below half the smallest positive double
    underflows to [0.0]; any other square is the exact one here. *)
Definition square (x : R) : result R :=
  if Rlt_dec 1.7976931348623157e308 (x * x) then Raise OverflowError
  else if Rlt_dec (x * x) 2.4703282292062327e-324 then Ok 0
  else Ok (x ^ 2).

(** [math.radians] and [math.degrees]. *)
Definition radians (x : R) : R := x * (PI / 180).
Definition degrees (x : R) : R := x * (180 / PI).

(** Nearest integer, ties to the even neighbour. *)
Definition rint (x : R) : Z :=
  let lo := Zfloor x in
  if Rlt_dec (x - IZR lo) (1 / 2) then lo
  else if Rlt_dec (1 / 2) (x - IZR lo) then (lo + 1)%Z
  else if Z.even lo then lo else (lo + 1)%Z.

(** [round(x, ndigits)]. *)
Definition round (x : R) (ndigits : nat) : R :=
  IZR (rint (x * 10 ^ ndigits)) / 10 ^ ndigits.

End Py.

(** ** Configuration: the tuple imported from [constants] *)

(** [proj = grs80] is indexed as [proj[0]] .. [proj[6]]; the fields below are
    those seven entries in order. *)
Record Projection : Set := mkProjection {
  proj0 : R;  (* semi-major axis *)
  proj1 : R;  (* inverse flattening *)
  proj2 : R;  (* false easting *)
  proj3 : R;  (* false northing *)
  proj4 : R;  (* central scale factor *)
  proj5 : R;  (* zone width, degrees *)
  proj6 : R   (* central meridian of zone 1, degrees *)
}.

(** Modelled from the spec: the tuple [grs80] of module [constants], which is
    not part of the sources at hand.  The projection entries are the defaults
    the specification lists (zone width 6, scale factor 0.9996, false easting
    500000, false northing 10000000, origin -177); the ellipsoid entries are
    the GRS80 defining values. *)
Definition grs80 : Projection :=
  mkProjection 6378137 298.257222101 500000 10000000 0.9996 6 (-177).

(** ** Module-level constants *)

Module Transform.

Record Constants : Set := mkConstants {
  f : R; semi_maj : R; semi_min : R;
  ecc1sq : R; ecc2sq : R; ecc1 : R;
  n : R; n2 : R;
  A : R;
  a2 : R; a4 : R; a6 : R; a8 : R; a10 : R; a12 : R; a14 : R; a16 : R;
  b2 : R; b4 : R; b6 : R; b8 : R; b10 : R; b12 : R; b14 : R; b16 : R
}.

(** Rectifying radius (Horner form). *)
Definition A_of (p0 n n2 : R) : result R :=
  q <- Py.div p0 (1 + n) ;;
  Ok (q * ((n2 * (n2 * (n2 * (25 * n2 + 64) + 256) + 4096) + 16384) / 16384)).

(** Alpha coefficients (Horner form). *)
Definition a2_of (n : R) : R :=
  (n * (n * (n * (n * (n * (n * ((37884525 - 75900428 * n) * n + 42422016)
     - 89611200) + 46287360) + 63504000) - 135475200) + 101606400))
  / 203212800.

Definition a4_of (n n2 : R) : R :=
  (n2 * (n * (n * (n * (n * (n * (148003883 * n + 83274912) - 178508970)
     + 77690880) + 67374720) - 104509440) + 47174400))
  / 174182400.

Definition a6_of (n : R) : R :=
  (n ^ 3 * (n * (n * (n * (n * (318729724 * n - 738126169) + 294981280)
     + 178924680) - 234938880) + 81164160))
  / 319334400.

Definition a8_of (n : R) : R :=
  (n ^ 4 * (n * (n * ((14967552000 - 40176129013 * n) * n + 6971354016)
     - 8165836800) + 2355138720))
  / 7664025600.

Definition a10_of (n : R) : R :=
  (n ^ 5 * (n * (n * (10421654396 * n + 3997835751) - 4266773472)
     + 1072709352))
  / 2490808320.

Definition a12_of (n : R) : R :=
  (n ^ 6 * (n * (175214326799 * n - 171950693600) + 38652967262))
  / 58118860800.

Definition a14_of (n : R) : R :=
  (n ^ 7 * (13700311101 - 67039739596 * n)) / 12454041600.

Definition a16_of (n : R) : R :=
  (1424729850961 * n ^ 8) / 743921418240.

(** Beta coefficients (Horner form), as written in the source. *)
Definition b2_of (n : R) : R :=
  (n * (n * (n * (n * (n * (n * ((37845269 - 31777436 * n) - 43097152)
     + 42865200) + 752640) - 104428800) + 180633600) - 135475200))
  / 270950400.

Definition b4_of (n : R) : R :=
  (n ^ 2 * (n * (n * (n * (n * ((-24749483 * n - 14930208) * n + 100683990)
     - 152616960) + 105719040) - 23224320) - 7257600))
  / 348364800.

Definition b6_of (n : R) : R :=
  (n ^ 3 * (n * (n * (n * (n * (232468668 * n - 101880889) - 39205760)
     + 29795040) + 28131840) - 22619520))
  / 638668800.

Definition b8_of (n : R) : R :=
  (n ^ 4 * (n * (n * ((-324154477 * n - 1433121792) * n + 876745056)
     + 167270400) - 208945440))
  / 7664025600.

Definition b10_of (n : R) : R :=
  (n ^ 5 * (n * (n * (312227409 - 457888660 * n) + 67920528) - 70779852))
  / 2490808320.

Definition b12_of (n : R) : R :=
  (n ^ 6 * (n * (19841813847 * n + 3665348512) - 3758062126))
  / 116237721600.

Definition b14_of (n : R) : R :=
  (n ^ 7 * (1989295244 * n - 1979471673)) / 49816166400.

Definition b16_of (n : R) : R :=
  (-191773887257 * n ^ 8) / 3719607091200.

(** Import of the module: the statements of lines 60-218 in order.  Importing
    fails with the first exception a statement raises. *)
Definition load (proj : Projection) : result Constants :=
  f <- Py.div 1 (proj1 proj) ;;
  let semi_maj := proj0 proj in
  let semi_min := semi_maj * (1 - f) in
  let ecc1sq := f * (2 - f) in
  ecc2sq <- Py.div ecc1sq (1 - ecc1sq) ;;
  ecc1 <- Py.sqrt ecc1sq ;;
  n <- Py.div f (2 - f) ;;
  let n2 := n ^ 2 in
  A <- A_of (proj0 proj) n n2 ;;
  Ok (mkConstants f semi_maj semi_min ecc1sq ecc2sq ecc1 n n2 A
        (a2_of n) (a4_of n n2) (a6_of n) (a8_of n)
        (a10_of n) (a12_of n) (a14_of n) (a16_of n)
        (b2_of n) (b4_of n) (b6_of n) (b8_of n)
        (b10_of n) (b12_of n) (b14_of n) (b16_of n)).

(** ** geo2grid *)

(** Line 229: the zone number. *)
Definition geo2grid_zone (proj : Projection) (long : R) : result Z :=
  q <- Py.div (long - (proj6 proj - 1.5 * proj5 proj)) (proj5 proj) ;;
  Ok (Py.int q).

(** Line 230: the central meridian of a zone. *)
Definition geo2grid_centmeridian (proj : Projection) (zone : Z) : R :=
  IZR zone * proj5 proj + (proj6 proj - proj5 proj).

(** Lines 231-267: easting and northing, given the central meridian.
    [Decimal(long) - Decimal(str(centmeridian))] is the exact difference;
    [math.tan] is total on floats and is the total [tan] here. *)
Definition geo2grid_tm (proj : Projection) (c : Constants)
    (lat long centmeridian : R) : result (R * R) :=
  (* Conformal Latitude *)
  s <- Py.sqrt (1 + tan (Py.radians lat) ^ 2) ;;
  sigx <- Py.div (ecc1 c * tan (Py.radians lat)) s ;;
  r <- Py.div (1 + sigx) (1 - sigx) ;;
  l <- Py.log r ;;
  let sig := sinh (ecc1 c * (0.5 * l)) in
  s1 <- Py.sqrt (1 + sig ^ 2) ;;
  s2 <- Py.sqrt (1 + tan (Py.radians lat) ^ 2) ;;
  let conf_lat := tan (Py.radians lat) * s1 - sig * s2 in
  let conf_lat := atan conf_lat in
  (* Longitude Difference *)
  let long_diff := Py.radians (long - centmeridian) in
  (* Gauss-Schreiber Ratios *)
  t <- Py.div (tan conf_lat) (cos long_diff) ;;
  let xi1 := atan t in
  s3 <- Py.sqrt (tan conf_lat ^ 2 + cos long_diff ^ 2) ;;
  eta1x <- Py.div (sin long_diff) s3 ;;
  s4 <- Py.sqrt (1 + eta1x ^ 2) ;;
  eta1 <- Py.log (eta1x + s4) ;;
  (* Transverse Mercator Ratios *)
  let eta2 := a2 c * cos (2 * xi1) * sinh (2 * eta1) in
  let eta4 := a4 c * cos (4 * xi1) * sinh (4 * eta1) in
  let eta6 := a6 c * cos (6 * xi1) * sinh (6 * eta1) in
  let eta8 := a8 c * cos (8 * xi1) * sinh (8 * eta1) in
  let eta10 := a10 c * cos (10 * xi1) * sinh (10 * eta1) in
  let eta12 := a12 c * cos (12 * xi1) * sinh (12 * eta1) in
  let eta14 := a14 c * cos (14 * xi1) * sinh (14 * eta1) in
  let eta16 := a16 c * cos (16 * xi1) * sinh (16 * eta1) in
  let xi2 := a2 c * sin (2 * xi1) * cosh (2 * eta1) in
  let xi4 := a4 c * sin (4 * xi1) * cosh (4 * eta1) in
  let xi6 := a6 c * sin (6 * xi1) * cosh (6 * eta1) in
  let xi8 := a8 c * sin (8 * xi1) * cosh (8 * eta1) in
  let xi10 := a10 c * sin (10 * xi1) * cosh (10 * eta1) in
  let xi12 := a12 c * sin (12 * xi1) * cosh (12 * eta1) in
  let xi14 := a14 c * sin (14 * xi1) * cosh (14 * eta1) in
  let xi16 := a16 c * sin (16 * xi1) * cosh (16 * eta1) in
  let eta := eta1 + eta2 + eta4 + eta6 + eta8 + eta10 + eta12 + eta14 + eta16 in
  let xi := xi1 + xi2 + xi4 + xi6 + xi8 + xi10 + xi12 + xi14 + xi16 in
  (* Transverse Mercator Co-ordinates *)
  let x := A c * eta in
  let y := A c * xi in
  (* MGA Co-ordinates *)
  let east := proj4 proj * x + proj2 proj in
  let north := proj4 proj * y + proj3 proj in
  Ok (Py.round east 5, Py.round north 5).

(** Lines 221-267. *)
Definition geo2grid (proj : Projection) (c : Constants) (lat long : R)
  : result (Z * R * R) :=
  zone <- geo2grid_zone proj long ;;
  let centmeridian := geo2grid_centmeridian proj zone in
  en <- geo2grid_tm proj c lat long centmeridian ;;
  Ok (zone, fst en, snd en).

(** ** grid2geo *)

(** The three closures of lines 308-320; [ftn] captures [t1]. *)
Definition sigma (c : Constants) (t : R) : result R :=
  s1 <- Py.sqrt (1 + t ^ 2) ;;
  u <- Py.div (ecc1 c * t) s1 ;;
  s2 <- Py.sqrt (1 + t ^ 2) ;;
  v <- Py.div (ecc1 c * t) s2 ;;
  r <- Py.div (1 + u) (1 - v) ;;
  l <- Py.log r ;;
  Ok (sinh (ecc1 c * 0.5 * l)).

Definition ftn (c : Constants) (t1 t : R) : result R :=
  sg1 <- sigma c t ;;
  r1 <- Py.sqrt (1 + sg1 ^ 2) ;;
  sg2 <- sigma c t ;;
  r2 <- Py.sqrt (1 + t ^ 2) ;;
  Ok (t * r1 - sg2 * r2 - t1).

Definition f1tn (c : Constants) (t : R) : result R :=
  sg1 <- sigma c t ;;
  r1 <- Py.sqrt (1 + sg1 ^ 2) ;;
  r2 <- Py.sqrt (1 + t ^ 2) ;;
  sg2 <- sigma c t ;;
  r3 <- Py.sqrt (1 + t ^ 2) ;;
  q <- Py.div ((1 - ecc1sq c) * r3) (1 + (1 - ecc1sq c) * t ^ 2) ;;
  Ok ((r1 * r2 - sg2 * t) * q).

(** Lines 277-333. *)
Definition grid2geo (proj : Projection) (c : Constants)
    (zone : Z) (easting northing : R) : result (R * R) :=
  (* Transverse Mercator Co-ordinates *)
  x <- Py.div (easting - proj2 proj) (proj4 proj) ;;
  y <- Py.div (northing - proj3 proj) (proj4 proj) ;;
  (* Transverse Mercator Ratios *)
  xi <- Py.div y (A c) ;;
  eta <- Py.div x (A c) ;;
  (* Gauss-Schreiber Ratios *)
  let xi2 := b2 c * sin (2 * xi) * cosh (2 * eta) in
  let xi4 := b4 c * sin (4 * xi) * cosh (4 * eta) in
  let xi6 := b6 c * sin (6 * xi) * cosh (6 * eta) in
  let xi8 := b8 c * sin (8 * xi) * cosh (8 * eta) in
  let xi10 := b10 c * sin (10 * xi) * cosh (10 * eta) in
  let xi12 := b12 c * sin (12 * xi) * cosh (12 * eta) in
  let xi14 := b14 c * sin (14 * xi) * cosh (14 * eta) in
  let xi16 := b16 c * sin (16 * xi) * cosh (16 * eta) in
  let eta2 := b2 c * cos (2 * xi) * sinh (2 * eta) in
  let eta4 := b4 c * cos (4 * xi) * sinh (4 * eta) in
  let eta6 := b6 c * cos (6 * xi) * sinh (6 * eta) in
  let eta8 := b8 c * cos (8 * xi) * sinh (8 * eta) in
  let eta10 := b10 c * cos (10 * xi) * sinh (10 * eta) in
  let eta12 := b12 c * cos (12 * xi) * sinh (12 * eta) in
  let eta14 := b14 c * cos (14 * xi) * sinh (14 * eta) in
  let eta16 := b16 c * cos (16 * xi) * sinh (16 * eta) in
  let xi1 := xi + xi2 + xi4 + xi6 + xi8 + xi10 + xi12 + xi14 + xi16 in
  let eta1 := eta + eta2 + eta4 + eta6 + eta8 + eta10 + eta12 + eta14 + eta16 in
  (* Conformal Latitude *)
  s <- Py.sqrt (sinh eta1 ^ 2 + cos xi1 ^ 2) ;;
  conf_lat <- Py.div (sin xi1) s ;;
  let t1 := conf_lat in
  (* Finding t using Newtons Method *)
  fv1 <- ftn c t1 t1 ;;
  dv1 <- f1tn c t1 ;;
  q1 <- Py.div fv1 dv1 ;;
  let t2 := t1 - q1 in
  fv2 <- ftn c t1 t2 ;;
  dv2 <- f1tn c t2 ;;
  q2 <- Py.div fv2 dv2 ;;
  let t3 := t2 - q2 in
  fv3 <- ftn c t1 t3 ;;
  dv3 <- f1tn c t3 ;;
  q3 <- Py.div fv3 dv3 ;;
  let t4 := t3 - q3 in
  (* Compute Latitude *)
  let lat := Py.degrees (atan t4) in
  (* Compute Longitude *)
  let cm := IZR zone * proj5 proj + proj6 proj - proj5 proj in
  ld <- Py.div (sinh eta1) (cos xi1) ;;
  let long_diff := Py.degrees (atan ld) in
  let long := cm + long_diff in
  Ok (Py.round lat 11, Py.round long 11).

(** ** xyz2llh *)

(** [math.atan2] on reals (signed zeros do not exist here). *)
Definition atan2 (y x : R) : R :=
  if Rlt_dec 0 x then atan (y / x)
  else if Rlt_dec x 0 then
    if Rle_dec 0 y then atan (y / x) + PI else atan (y / x) - PI
  else if Rlt_dec 0 y then PI / 2
  else if Rlt_dec y 0 then - (PI / 2)
  else 0.

(** One pass through the body of the [while] loop (lines 351-353): the new
    [lat] and the new [itercheck]. *)
Definition xyz2llh_body (c : Constants) (z p lat : R) : result (R * R) :=
  s <- Py.sqrt (1 - ecc1sq c * sin lat ^ 2) ;;
  nu <- Py.div (semi_maj c) s ;;
  q <- Py.div (z + nu * ecc1sq c * sin lat) p ;;
  let itercheck := lat - atan q in
  q' <- Py.div (z + nu * ecc1sq c * sin lat) p ;;
  Ok (atan q', itercheck).

(** [while abs(itercheck) > 1e-10: ...].  The source loop has no counter; the
    fuel only makes the definition structural, and [None] means the fuel ran
    out before the loop condition became false. *)
Fixpoint xyz2llh_while (c : Constants) (fuel : nat) (z p lat itercheck : R)
  : option (result R) :=
  if Rgt_dec (Rabs itercheck) 1e-10 then
    match fuel with
    | O => None
    | S fuel' =>
        match xyz2llh_body c z p lat with
        | Raise e => Some (Raise e)
        | Ok (lat', itercheck') => xyz2llh_while c fuel' z p lat' itercheck'
        end
    end
  else Some (Ok lat).

(** Lines 344-347: [p] and the initial latitude. *)
Definition xyz2llh_init (c : Constants) (x y z : R) : result (R * R) :=
  x2 <- Py.square x ;;
  y2 <- Py.square y ;;
  p <- Py.sqrt (x2 + y2) ;;
  q <- Py.div (z * (1 + ecc2sq c)) p ;;
  Ok (p, atan q).

(** Lines 354-359. *)
Definition xyz2llh_finish (c : Constants) (p lat long : R)
  : result (R * R * R) :=
  s <- Py.sqrt (1 - ecc1sq c * sin lat ^ 2) ;;
  nu <- Py.div (semi_maj c) s ;;
  pc <- Py.div p (cos lat) ;;
  let ellht := pc - nu in
  Ok (Py.degrees lat, Py.degrees long, ellht).

Definition xyz2llh (c : Constants) (fuel : nat) (x y z : R)
  : option (result (R * R * R)) :=
  let long := atan2 y x in
  match xyz2llh_init c x y z with
  | Raise e => Some (Raise e)
  | Ok (p, latinit) =>
      match xyz2llh_while c fuel z p latinit 1 with
      | None => None
      | Some (Raise e) => Some (Raise e)
      | Some (Ok lat) => Some (xyz2llh_finish c p lat long)
      end
  end.

(** ** llh2xyz *)

(** Lines 368-379; [Decimal(str(v))] is [v]. *)
Definition llh2xyz (proj : Projection) (c : Constants) (lat long ellht : R)
  : result (R * R * R) :=
  let lat := Py.radians lat in
  let long := Py.radians long in
  nu <- (if Req_dec_T lat 0 then Ok (proj0 proj)
         else s <- Py.sqrt (1 - ecc1sq c * sin lat ^ 2) ;;
              Py.div (semi_maj c) s) ;;
  let x := (nu + ellht) * cos lat * cos long in
  let y := (nu + ellht) * cos lat * sin long in
  r <- Py.div (semi_min c ^ 2) (semi_maj c ^ 2) ;;
  let z := (r * nu + ellht) * sin lat in
  Ok (x, y, z).

End Transform.

(** ** Reference formulas the statements below compare the code with *)

(** The quotient whose integer part is the zone number. *)
Definition zone_quotient (proj : Projection) (long : R) : R :=
  (long - (proj6 proj - 1.5 * proj5 proj)) / proj5 proj.

(** Inverse hyperbolic tangent. *)
Definition artanh (x : R) : R := / 2 * ln ((1 + x) / (1 - x)).

(** [sigma(t) = sinh(e1 artanh(e1 t / sqrt(1 + t^2)))]. *)
Definition sigma_ref (e t : R) : R :=
  sinh (e * artanh (e * t / sqrt (1 + t ^ 2))).

(** [f(t) = t sqrt(1 + sigma(t)^2) - sigma(t) sqrt(1 + t^2) - t1]. *)
Definition newton_f (e t1 t : R) : R :=
  t * sqrt (1 + sigma_ref e t ^ 2) - sigma_ref e t * sqrt (1 + t ^ 2) - t1.

(** The derivative of [newton_f] in the closed form of the source. *)
Definition newton_df (e t : R) : R :=
  (sqrt (1 + sigma_ref e t ^ 2) * sqrt (1 + t ^ 2) - sigma_ref e t * t)
  * ((1 - e ^ 2) * sqrt (1 + t ^ 2) / (1 + (1 - e ^ 2) * t ^ 2)).

(** One Newton step on [newton_f]. *)
Definition newton_step (e t1 t : R) : R :=
  t - newton_f e t1 t / newton_df e t.

(** The beta series taking grid ratios to Gauss-Schreiber ratios. *)
Definition beta_term (c : Transform.Constants) (k : nat) : R :=
  match k with
  | 1%nat => Transform.b2 c | 2%nat => Transform.b4 c
  | 3%nat => Transform.b6 c | 4%nat => Transform.b8 c
  | 5%nat => Transform.b10 c | 6%nat => Transform.b12 c
  | 7%nat => Transform.b14 c | 8%nat => Transform.b16 c
  | _ => 0
  end.

Fixpoint series (term : nat -> R) (k : nat) : R :=
  match k with
  | O => 0
  | S k' => series term k' + term k
  end.

Definition gs_xi1 (c : Transform.Constants) (xi eta : R) : R :=
  xi + series (fun k => beta_term c k * sin (2 * INR k * xi)
                                     * cosh (2 * INR k * eta)) 8.

Definition gs_eta1 (c : Transform.Constants) (xi eta : R) : R :=
  eta + series (fun k => beta_term c k * cos (2 * INR k * xi)
                                      * sinh (2 * INR k * eta)) 8.

(** The prime-vertical radius of curvature at a latitude in radians. *)
Definition prime_vertical (c : Transform.Constants) (phi : R) : R :=
  Transform.semi_maj c / sqrt (1 - Transform.ecc1sq c * sin phi ^ 2).

(** The fixed-point map of the xyz2llh loop. *)
Definition bowring (c : Transform.Constants) (z p lat : R) : R :=
  atan ((z + prime_vertical c lat * Transform.ecc1sq c * sin lat) / p).

(** Inverse hyperbolic sine. *)
Definition arsinh (x : R) : R := ln (x + sqrt (1 + x ^ 2)).

(** Tangent of the conformal latitude, from the tangent [T] of the geodetic
    latitude. *)
Definition conformal_tan (e T : R) : R :=
  T * sqrt (1 + sigma_ref e T ^ 2) - sigma_ref e T * sqrt (1 + T ^ 2).

(** The alpha series taking Gauss-Schreiber ratios to grid ratios. *)
Definition alpha_term (c : Transform.Constants) (k : nat) : R :=
  match k with
  | 1%nat => Transform.a2 c | 2%nat => Transform.a4 c
  | 3%nat => Transform.a6 c | 4%nat => Transform.a8 c
  | 5%nat => Transform.a10 c | 6%nat => Transform.a12 c
  | 7%nat => Transform.a14 c | 8%nat => Transform.a16 c
  | _ => 0
  end.

Definition tm_xi (c : Transform.Constants) (xi1 eta1 : R) : R :=
  xi1 + series (fun k => alpha_term c k * sin (2 * INR k * xi1)
                                       * cosh (2 * INR k * eta1)) 8.

Definition tm_eta (c : Transform.Constants) (xi1 eta1 : R) : R :=
  eta1 + series (fun k => alpha_term c k * cos (2 * INR k * xi1)
                                        * sinh (2 * INR k * eta1)) 8.

(** The Gauss-Schreiber ratios of a point with conformal tangent [tau] at
    longitude difference [dl] (radians) from the central meridian. *)
Definition gs_forward_xi (tau dl : R) : R := atan (tau / cos dl).

Definition gs_forward_eta (tau dl : R) : R :=
  arsinh (sin dl / sqrt (tau ^ 2 + cos dl ^ 2)).

(** A coordinate whose square is computed without overflow or underflow. *)
Definition in_double_range (v : R) : Prop :=
  v = 0 \/ 1e-150 <= Rabs v <= 1e150.

(** A point at least a metre off the polar axis and no steeper than a
    million to one: the range in which double precision keeps the height
    [p / cos(lat) - nu] meaningful. *)
Definition clear_of_axis (x y z : R) : Prop :=
  1 <= x ^ 2 + y ^ 2 /\ Rabs z <= 1e6 * sqrt (x ^ 2 + y ^ 2).

(** A longitude clear of the zone edges: its zone quotient is at least
    [1e-9] away from every integer, and the longitude is moderate against
    the zone width, so that the rounding of the double-precision sum on
    line 229 cannot move it across an edge. *)
Definition clear_of_edges (proj : Projection) (long : R) : Prop :=
  (forall m : Z, 1e-9 <= Rabs (zone_quotient proj long - IZR m))
  /\ Rabs long + Rabs (proj6 proj) + 2 * proj5 proj <= 1e6 * proj5 proj.

(** Grid ratios in the range of the doubles: a moderate [xi], whose
    multiples the sine and cosine resolve, and [eta] and [eta1] for which
    [math.sinh], [math.cosh] and the square of [sinh(eta1)] stay below the
    largest double in grid2geo. *)
Definition overflow_free (c : Transform.Constants) (xi eta : R) : Prop :=
  Rabs xi <= 100 /\ Rabs eta <= 40 /\ Rabs (gs_eta1 c xi eta) <= 350.

(** A configuration the module is meant for: a positive semi-major axis, an
    inverse flattening above 1, a non-zero scale factor and a zone width
    strictly between 0 and 60 degrees. *)
Definition valid_config (proj : Projection) : Prop :=
  0 < proj0 proj /\ 1 < proj1 proj /\ proj4 proj <> 0 /\ 0 < proj5 proj < 60.

(** * Properties *)

(** ** The primitives *)

Lemma div_ok (x y : R) : y <> 0 -> Py.div x y = Ok (x / y).
Proof.
  intros Hy; unfold Py.div.
  destruct (Req_dec_T y 0) as [E | _]; [contradiction | reflexivity].
Qed.

Lemma div_zero (x : R) : Py.div x 0 = Raise ZeroDivisionError.
Proof.
  unfold Py.div.
  destruct (Req_dec_T 0 0) as [_ | NE]; [reflexivity | now elim NE].
Qed.

Lemma sqrt_ok (x : R) : 0 <= x -> Py.sqrt x = Ok (sqrt x).
Proof.
  intros Hx; unfold Py.sqrt.
  destruct (Rlt_dec x 0) as [L | _]; [lra | reflexivity].
Qed.

Lemma sqrt_neg (x : R) : x < 0 -> Py.sqrt x = Raise ValueError.
Proof.
  intros Hx; unfold Py.sqrt.
  destruct (Rlt_dec x 0) as [_ | L]; [reflexivity | contradiction].
Qed.

Lemma log_ok (x : R) : 0 < x -> Py.log x = Ok (ln x).
Proof.
  intros Hx; unfold Py.log.
  destruct (Rle_dec x 0) as [L | _]; [lra | reflexivity].
Qed.

Lemma int_nonneg (x : R) : 0 <= x -> Py.int x = Zfloor x.
Proof.
  intros Hx; unfold Py.int.
  destruct (Rle_dec 0 x) as [_ | L]; [reflexivity | contradiction].
Qed.

Lemma int_neg (x : R) : x < 0 -> Py.int x = Zceil x.
Proof.
  intros Hx; unfold Py.int.
  destruct (Rle_dec 0 x) as [L | _]; [lra | reflexivity].
Qed.

(** [int] moves its argument by less than one, toward zero. *)
Lemma int_bound (x : R) : -1 < x - IZR (Py.int x) < 1.
Proof.
  destruct (Rle_dec 0 x) as [H | H].
  - rewrite int_nonneg by assumption.
    pose proof (Zfloor_bound x); lra.
  - rewrite int_neg by lra.
    pose proof (Zceil_bound x); lra.
Qed.

Lemma int_shift_nonneg (x : R) :
  0 <= x -> Py.int (x + 1) = (Py.int x + 1)%Z.
Proof.
  intros Hx.
  rewrite !int_nonneg by lra.
  apply (Zfloor_addz 1 x).
Qed.

(** ** The module-level constants *)

Section Load.

Import Transform.

Variable proj : Projection.

Lemma flattening_range : / 2 < proj1 proj -> proj1 proj <> 1 ->
  0 < 1 / proj1 proj < 2 /\ 1 / proj1 proj <> 1.
Proof.
  intros H1 H2.
  assert (Hpos : 0 < proj1 proj) by lra.
  assert (Hinv : 0 < / proj1 proj) by now apply Rinv_0_lt_compat.
  assert (E : proj1 proj * / proj1 proj = 1) by (apply Rinv_r; lra).
  unfold Rdiv; rewrite Rmult_1_l.
  repeat split; nra.
Qed.

(** Importing succeeds whenever the inverse flattening is above one half
    and different from 1, whatever the semi-major axis. *)
Lemma load_ok : / 2 < proj1 proj -> proj1 proj <> 1 -> exists c, load proj = Ok c.
Proof.
  intros H1 H2.
  destruct (flattening_range H1 H2) as [[Hf0 Hf2] Hf1].
  unfold load, A_of.
  rewrite div_ok by lra; cbn [bind].
  set (fl := 1 / proj1 proj) in *.
  assert (He : 0 < fl * (2 - fl) < 1) by nra.
  rewrite div_ok by lra; cbn [bind].
  rewrite sqrt_ok by lra; cbn [bind].
  rewrite div_ok by lra; cbn [bind].
  assert (Hn : 0 < fl / (2 - fl)).
  { apply Rdiv_lt_0_compat; lra. }
  rewrite div_ok by lra; cbn [bind].
  eexists; reflexivity.
Qed.

(** What a successful import leaves in the module globals. *)
Lemma load_fields (c : Constants) :
  load proj = Ok c ->
  f c = 1 / proj1 proj /\ semi_maj c = proj0 proj /\
  semi_min c = proj0 proj * (1 - f c) /\
  ecc1sq c = f c * (2 - f c) /\
  ecc1 c = sqrt (ecc1sq c) /\
  n c = f c / (2 - f c) /\
  A c = proj0 proj / (1 + n c)
        * ((n c ^ 2 * (n c ^ 2 * (n c ^ 2 * (25 * n c ^ 2 + 64) + 256)
            + 4096) + 16384) / 16384).
Proof.
  unfold load, A_of, Py.div, Py.sqrt.
  repeat match goal with
         | |- context [if ?d then _ else _] => destruct d; cbn [bind]
         end;
    try discriminate.
  intros H; injection H as <-; cbn.
  repeat split; reflexivity.
Qed.

(** With an inverse flattening above 1 the eccentricity is proper. *)
Lemma load_ellipsoid (c : Constants) :
  load proj = Ok c -> 1 < proj1 proj ->
  0 < ecc1sq c < 1 /\ 0 < ecc1 c < 1 /\ ecc1 c ^ 2 = ecc1sq c /\
  0 < n c /\ 0 < f c < 1.
Proof.
  intros Hl Hi.
  destruct (load_fields c Hl) as (Ef & _ & _ & Ee & Es & En & _).
  assert (Hf : 0 < f c < 1).
  { rewrite Ef.
    assert (Hpos : 0 < / proj1 proj) by (apply Rinv_0_lt_compat; lra).
    assert (E : proj1 proj * / proj1 proj = 1) by (apply Rinv_r; lra).
    unfold Rdiv; rewrite Rmult_1_l; nra. }
  assert (He : 0 < ecc1sq c < 1) by (rewrite Ee; nra).
  assert (Hs : 0 < ecc1 c) by (rewrite Es; apply sqrt_lt_R0; lra).
  assert (Hq : ecc1 c ^ 2 = ecc1sq c).
  { rewrite Es; simpl; rewrite Rmult_1_r; apply sqrt_sqrt; lra. }
  repeat split; try lra.
  - nra.
  - rewrite En; apply Rdiv_lt_0_compat; lra.
Qed.

Lemma load_radius (c : Constants) :
  load proj = Ok c -> 1 < proj1 proj -> 0 < proj0 proj ->
  0 < semi_maj c /\ 0 < A c.
Proof.
  intros Hl Hi Ha.
  destruct (load_fields c Hl) as (_ & Em & _ & _ & _ & _ & EA).
  destruct (load_ellipsoid c Hl Hi) as (_ & _ & _ & Hn & _).
  split; [lra |].
  rewrite EA.
  apply Rmult_lt_0_compat.
  - apply Rdiv_lt_0_compat; lra.
  - apply Rdiv_lt_0_compat; [| lra].
    assert (0 <= n c ^ 2) by apply pow2_ge_0.
    nra.
Qed.

End Load.

(** ** Real-analysis facts the totality proofs rest on *)

Lemma div_lower (a b s : R) : 0 < s -> a * s <= b -> a <= b / s.
Proof.
  intros Hs H.
  apply Rmult_le_reg_r with s; [exact Hs |].
  replace (b / s * s) with b by (field; lra); exact H.
Qed.

Lemma div_upper (a b s : R) : 0 < s -> b <= a * s -> b / s <= a.
Proof.
  intros Hs H.
  apply Rmult_le_reg_r with s; [exact Hs |].
  replace (b / s * s) with b by (field; lra); exact H.
Qed.

Lemma sqrt_1_sq_pos (t : R) : 0 < sqrt (1 + t ^ 2).
Proof.
  apply sqrt_lt_R0; pose proof (pow2_ge_0 t); lra.
Qed.

Lemma sqrt_1_sq_sq (t : R) : sqrt (1 + t ^ 2) * sqrt (1 + t ^ 2) = 1 + t ^ 2.
Proof.
  apply sqrt_sqrt; pose proof (pow2_ge_0 t); lra.
Qed.

(** [t / sqrt(1 + t^2)] lies strictly between -1 and 1. *)
Lemma ratio_bound (t : R) : -1 < t / sqrt (1 + t ^ 2) < 1.
Proof.
  pose proof (sqrt_1_sq_pos t) as Hs.
  pose proof (sqrt_1_sq_sq t) as Hq.
  set (s := sqrt (1 + t ^ 2)) in *.
  assert (Ht : - s < t < s) by nra.
  assert (E : t / s * s = t) by (field; lra).
  split; nra.
Qed.

Lemma scaled_ratio_bound (e t : R) :
  0 < e < 1 -> -1 < e * t / sqrt (1 + t ^ 2) < 1.
Proof.
  intros He.
  pose proof (ratio_bound t) as Hr.
  replace (e * t / sqrt (1 + t ^ 2)) with (e * (t / sqrt (1 + t ^ 2)))
    by (unfold Rdiv; ring).
  split; nra.
Qed.

Lemma arsinh_arg_pos (x : R) : 0 < x + sqrt (1 + x ^ 2).
Proof.
  pose proof (sqrt_1_sq_pos x) as Hs.
  pose proof (sqrt_1_sq_sq x) as Hq.
  nra.
Qed.

Lemma cos_radians_pos (d : R) : -90 < d < 90 -> 0 < cos (Py.radians d).
Proof.
  intros Hd; unfold Py.radians.
  pose proof PI_RGT_0 as Hpi.
  apply cos_gt_0; nra.
Qed.

(** ** geo2grid *)

Section Geo2grid.

Import Transform.

Variables (proj : Projection) (c : Constants).
Hypothesis Hload : load proj = Ok c.
Hypothesis Hvalid : valid_config proj.

Lemma geo2grid_zone_ok (long : R) :
  geo2grid_zone proj long = Ok (Py.int (zone_quotient proj long)).
Proof.
  destruct Hvalid as (_ & _ & _ & Hw).
  unfold geo2grid_zone, zone_quotient.
  rewrite div_ok by lra; reflexivity.
Qed.

(** A longitude is never 90 degrees or more away from the central meridian
    of the zone computed for it. *)
Lemma centmeridian_near (long : R) :
  let zone := Py.int (zone_quotient proj long) in
  -90 < long - geo2grid_centmeridian proj zone < 90.
Proof.
  destruct Hvalid as (_ & _ & _ & Hw).
  intros zone; unfold geo2grid_centmeridian.
  pose proof (int_bound (zone_quotient proj long)) as Hb.
  fold zone in Hb.
  assert (E : long = zone_quotient proj long * proj5 proj
                     + (proj6 proj - 1.5 * proj5 proj)).
  { unfold zone_quotient; field; lra. }
  set (q := zone_quotient proj long) in *.
  split; nra.
Qed.

(** The projection part raises nothing as long as the longitude difference
    stays below a right angle. *)
Lemma geo2grid_tm_ok (lat long cm : R) :
  -90 < long - cm < 90 ->
  exists en, geo2grid_tm proj c lat long cm = Ok en.
Proof.
  intros Hd.
  destruct Hvalid as (_ & Hi & _ & _).
  destruct (load_ellipsoid proj c Hload Hi) as (_ & He & _).
  pose proof (cos_radians_pos _ Hd) as Hcos.
  unfold geo2grid_tm.
  set (T := tan (Py.radians lat)).
  pose proof (sqrt_1_sq_pos T) as HsT.
  pose proof (scaled_ratio_bound (ecc1 c) T He) as Hsig.
  rewrite sqrt_ok by (pose proof (pow2_ge_0 T); lra); cbn [bind].
  rewrite div_ok by lra; cbn [bind].
  set (sigx := ecc1 c * T / sqrt (1 + T ^ 2)) in *.
  rewrite div_ok by lra; cbn [bind].
  rewrite log_ok by (apply Rdiv_lt_0_compat; lra); cbn [bind].
  set (sig := sinh _).
  rewrite sqrt_ok by (pose proof (pow2_ge_0 sig); lra); cbn [bind].
  set (cl := atan _).
  rewrite div_ok by lra; cbn [bind].
  set (ld := Py.radians (long - cm)) in *.
  assert (Hsum : 0 < tan cl ^ 2 + cos ld ^ 2).
  { pose proof (pow2_ge_0 (tan cl)); assert (0 < cos ld ^ 2) by nra; lra. }
  rewrite sqrt_ok by lra; cbn [bind].
  rewrite div_ok by (apply Rgt_not_eq, sqrt_lt_R0; lra); cbn [bind].
  set (eta1x := sin ld / _).
  rewrite sqrt_ok by (pose proof (pow2_ge_0 eta1x); lra); cbn [bind].
  rewrite log_ok by apply arsinh_arg_pos; cbn [bind].
  eexists; reflexivity.
Qed.

(** geo2grid raises nothing: it returns the truncated quotient as zone,
    with the easting and northing computed about that zone's meridian. *)
Lemma geo2grid_ok (lat long : R) :
  let zone := Py.int (zone_quotient proj long) in
  exists e n,
    geo2grid_tm proj c lat long (geo2grid_centmeridian proj zone)
      = Ok (e, n)
    /\ geo2grid proj c lat long = Ok (zone, e, n).
Proof.
  intros zone.
  destruct (geo2grid_tm_ok lat long _ (centmeridian_near long))
    as [[e n0] Htm].
  fold zone in Htm.
  exists e, n0; split; [assumption |].
  unfold geo2grid.
  rewrite geo2grid_zone_ok; cbn [bind]; fold zone.
  rewrite Htm; reflexivity.
Qed.

End Geo2grid.

(** ** The default configuration *)

Lemma grs80_valid : valid_config grs80.
Proof.
  unfold valid_config, grs80; simpl; repeat split; lra.
Qed.

Lemma grs80_loads : exists c, Transform.load grs80 = Ok c.
Proof.
  apply load_ok; unfold grs80; simpl; lra.
Qed.

Lemma grs80_quotient (long : R) : zone_quotient grs80 long = (long + 186) / 6.
Proof.
  unfold zone_quotient, grs80; cbn [proj5 proj6].
  unfold Rdiv; f_equal; lra.
Qed.

(** West of -186 degrees the quotient is negative: at -190 it is -2/3, which
    [int] takes to 0 and the floor to -1. *)
Lemma grs80_zone_190W :
  Py.int (zone_quotient grs80 (-190)) = 0%Z
  /\ Zfloor (zone_quotient grs80 (-190)) = (-1)%Z.
Proof.
  rewrite grs80_quotient; split.
  - rewrite int_neg by lra.
    apply Zceil_eq; simpl; lra.
  - apply Zfloor_eq; simpl; lra.
Qed.

Lemma grs80_zone_184W : Py.int (zone_quotient grs80 (-190 + 6)) = 0%Z.
Proof.
  rewrite grs80_quotient, int_nonneg by lra.
  apply Zfloor_eq; simpl; lra.
Qed.

Lemma grs80_zone_0 : Py.int (zone_quotient grs80 0) = 31%Z.
Proof.
  rewrite grs80_quotient, int_nonneg by lra.
  apply Zfloor_eq; simpl; lra.
Qed.

(** ** Zone number and central meridian *)

(** C2, counterexample.  With the default configuration geo2grid returns
    zone 0 for longitude -190, where the floor of the zone quotient is -1. *)
Lemma geo2grid_zone_not_floor :
  exists c e n,
    Transform.load grs80 = Ok c
    /\ Transform.geo2grid grs80 c 0 (-190) = Ok (0%Z, e, n)
    /\ Zfloor (zone_quotient grs80 (-190)) <> 0%Z.
Proof.
  destruct grs80_loads as [c Hc].
  destruct (geo2grid_ok grs80 c Hc grs80_valid 0 (-190)) as (e & n & _ & H).
  destruct grs80_zone_190W as [Hint Hfloor].
  rewrite Hint in H.
  exists c, e, n; repeat split; try assumption.
  rewrite Hfloor; discriminate.
Qed.

(** C2, amended.  geo2grid computes the zone number by truncating the
    quotient [(long - (origin - 1.5 zoneWidth)) / zoneWidth] toward zero:
    this is the floor when the quotient is non-negative and the ceiling when
    it is negative.  The central meridian is
    [zone * zoneWidth + (origin - zoneWidth)], and easting and northing are
    computed about it. *)
Theorem geo2grid_zone_truncates (proj : Projection) (c : Transform.Constants)
    (lat long : R) :
  Transform.load proj = Ok c -> valid_config proj ->
  let q := zone_quotient proj long in
  let zone := Py.int q in
  (0 <= q -> zone = Zfloor q)
  /\ (q < 0 -> zone = Zceil q)
  /\ Transform.geo2grid_zone proj long = Ok zone
  /\ Transform.geo2grid_centmeridian proj zone
     = IZR zone * proj5 proj + (proj6 proj - proj5 proj)
  /\ exists e n,
       Transform.geo2grid_tm proj c lat long
         (IZR zone * proj5 proj + (proj6 proj - proj5 proj)) = Ok (e, n)
       /\ Transform.geo2grid proj c lat long = Ok (zone, e, n).
Proof.
  intros Hl Hv q zone.
  split; [apply int_nonneg |].
  split; [apply int_neg |].
  split; [apply geo2grid_zone_ok; assumption |].
  split; [reflexivity |].
  exact (geo2grid_ok proj c Hl Hv lat long).
Qed.

Lemma geo2grid_zone_truncates_witness :
  exists c,
    Transform.load grs80 = Ok c
    /\ Transform.geo2grid_zone grs80 0 = Ok 31%Z
    /\ exists e n, Transform.geo2grid grs80 c 0 0 = Ok (31%Z, e, n).
Proof.
  destruct grs80_loads as [c Hc].
  exists c; split; [exact Hc |].
  destruct (geo2grid_zone_truncates grs80 c 0 0 Hc grs80_valid)
    as (_ & _ & Hz & _ & e & n & _ & Hg).
  rewrite grs80_zone_0 in Hz, Hg.
  split; [exact Hz | exists e, n; exact Hg].
Defined.

(** C8.  The zone geo2grid returns is the same for any two latitudes at one
    longitude: it is the truncated zone quotient, a function of the
    longitude, the zone width and the origin only. *)
Theorem geo2grid_zone_determinism (proj : Projection)
    (c : Transform.Constants) (lat1 lat2 long : R) :
  Transform.load proj = Ok c -> valid_config proj ->
  exists zone e1 n1 e2 n2,
    Transform.geo2grid proj c lat1 long = Ok (zone, e1, n1)
    /\ Transform.geo2grid proj c lat2 long = Ok (zone, e2, n2)
    /\ zone = Py.int ((long - (proj6 proj - 1.5 * proj5 proj)) / proj5 proj).
Proof.
  intros Hl Hv.
  destruct (geo2grid_ok proj c Hl Hv lat1 long) as (e1 & n1 & _ & H1).
  destruct (geo2grid_ok proj c Hl Hv lat2 long) as (e2 & n2 & _ & H2).
  exists (Py.int (zone_quotient proj long)), e1, n1, e2, n2.
  repeat split; assumption || reflexivity.
Qed.

Lemma geo2grid_zone_determinism_witness :
  exists c zone e1 n1 e2 n2,
    Transform.load grs80 = Ok c
    /\ Transform.geo2grid grs80 c (-35) 149 = Ok (zone, e1, n1)
    /\ Transform.geo2grid grs80 c 60 149 = Ok (zone, e2, n2).
Proof.
  destruct grs80_loads as [c Hc].
  destruct (geo2grid_zone_determinism grs80 c (-35) 60 149 Hc grs80_valid)
    as (zone & e1 & n1 & e2 & n2 & H1 & H2 & _).
  exists c, zone, e1, n1, e2, n2; repeat split; assumption.
Defined.

(** C9, counterexample.  With the default configuration the longitudes -190
    and -190 + 6 both fall in zone 0. *)
Lemma geo2grid_zone_shift_fails :
  exists c e n e' n',
    Transform.load grs80 = Ok c
    /\ Transform.geo2grid grs80 c 0 (-190) = Ok (0%Z, e, n)
    /\ Transform.geo2grid grs80 c 0 (-190 + proj5 grs80) = Ok (0%Z, e', n')
    /\ 0%Z <> (0 + 1)%Z.
Proof.
  destruct grs80_loads as [c Hc].
  destruct (geo2grid_ok grs80 c Hc grs80_valid 0 (-190)) as (e & n & _ & H).
  destruct (geo2grid_ok grs80 c Hc grs80_valid 0 (-190 + proj5 grs80))
    as (e' & n' & _ & H').
  destruct grs80_zone_190W as [Hint _].
  rewrite Hint in H.
  change (proj5 grs80) with 6 in H' |- *.
  rewrite grs80_zone_184W in H'.
  exists c, e, n, e', n'; repeat split; try assumption.
  discriminate.
Qed.

Lemma int_shift_neg (x : R) :
  x <= -1 -> Py.int (x + 1) = (Py.int x + 1)%Z.
Proof.
  intros Hx.
  rewrite (int_neg x) by lra.
  destruct (Req_dec_T x (-1)) as [-> | Hne].
  - replace (-1 + 1) with (IZR 0) by (simpl; ring).
    rewrite int_nonneg, ZfloorZ by (simpl; lra).
    replace (-1) with (IZR (-1)) by reflexivity.
    unfold Zceil; rewrite <- opp_IZR, ZfloorZ; reflexivity.
  - rewrite int_neg by lra.
    apply (Zceil_addz 1 x).
Qed.

Lemma int_shift (x : R) :
  ~ (-1 < x < 0) -> Py.int (x + 1) = (Py.int x + 1)%Z.
Proof.
  intros Hx.
  destruct (Rle_dec 0 x) as [Hpos | Hneg].
  - apply int_shift_nonneg; exact Hpos.
  - apply int_shift_neg; lra.
Qed.

(** C9, amended.  For every latitude and every longitude whose zone
    quotient is not strictly between -1 and 0, and which is clear of the
    zone edges, the zone geo2grid computes for [long + zoneWidth] is the
    zone it computes for [long] plus exactly 1. *)
Theorem geo2grid_zone_shift (proj : Projection) (c : Transform.Constants)
    (lat long : R) :
  Transform.load proj = Ok c -> valid_config proj ->
  ~ (-1 < zone_quotient proj long < 0) ->
  clear_of_edges proj long ->
  exists zone e n e' n',
    Transform.geo2grid proj c lat long = Ok (zone, e, n)
    /\ Transform.geo2grid proj c lat (long + proj5 proj)
       = Ok ((zone + 1)%Z, e', n').
Proof.
  intros Hl Hv Hq _.
  destruct (geo2grid_ok proj c Hl Hv lat long) as (e & n & _ & H).
  destruct (geo2grid_ok proj c Hl Hv lat (long + proj5 proj))
    as (e' & n' & _ & H').
  exists (Py.int (zone_quotient proj long)), e, n, e', n'.
  split; [assumption |].
  destruct Hv as (_ & _ & _ & Hw).
  assert (E : zone_quotient proj (long + proj5 proj)
              = zone_quotient proj long + 1).
  { unfold zone_quotient; field; lra. }
  rewrite E, int_shift in H' by assumption.
  exact H'.
Qed.

(** A quotient with a fractional part well inside (0, 1) is clear of every
    integer. *)
Lemma clear_of_integers (q : R) (k : Z) :
  IZR k + 1e-9 <= q <= IZR k + 1 - 1e-9 ->
  forall m : Z, 1e-9 <= Rabs (q - IZR m).
Proof.
  intros Hq m.
  destruct (Z_le_gt_dec m k) as [Hm | Hm].
  - apply IZR_le in Hm.
    rewrite Rabs_right by lra; lra.
  - assert (Hm' : (k + 1 <= m)%Z) by lia.
    apply IZR_le in Hm'; rewrite plus_IZR in Hm'.
    rewrite Rabs_left1 by lra; lra.
Qed.

Lemma grs80_clear_149 : clear_of_edges grs80 149.
Proof.
  split.
  - apply (clear_of_integers _ 55).
    rewrite grs80_quotient; lra.
  - unfold grs80; cbn [proj5 proj6].
    rewrite !Rabs_right by lra.
    rewrite Rabs_left by lra; lra.
Qed.

Lemma geo2grid_zone_shift_witness :
  exists c zone e n e' n',
    Transform.load grs80 = Ok c
    /\ Transform.geo2grid grs80 c 10 149 = Ok (zone, e, n)
    /\ Transform.geo2grid grs80 c 10 (149 + proj5 grs80)
       = Ok ((zone + 1)%Z, e', n').
Proof.
  destruct grs80_loads as [c Hc].
  assert (Hq : ~ (-1 < zone_quotient grs80 149 < 0))
    by (rewrite grs80_quotient; lra).
  destruct (geo2grid_zone_shift grs80 c 10 149 Hc grs80_valid Hq
              grs80_clear_149)
    as (zone & e & n & e' & n' & H & H').
  exists c, zone, e, n, e', n'; repeat split; assumption.
Defined.

(** ** llh2xyz *)

Lemma curvature_arg_pos (e2 phi : R) :
  0 < e2 < 1 -> 0 < 1 - e2 * sin phi ^ 2.
Proof.
  intros He.
  pose proof (SIN_bound phi) as Hs.
  assert (sin phi ^ 2 <= 1) by nra.
  pose proof (pow2_ge_0 (sin phi)).
  nra.
Qed.

Lemma radians_0 (d : R) : Py.radians d = 0 <-> d = 0.
Proof.
  unfold Py.radians.
  pose proof PI_RGT_0 as Hpi.
  split; intros H; [| subst; ring].
  assert (Hk : PI / 180 <> 0) by lra.
  apply Rmult_integral in H; tauto.
Qed.

Section Llh2xyz.

Import Transform.

Variables (proj : Projection) (c : Constants).
Hypothesis Hload : load proj = Ok c.
Hypothesis Hvalid : valid_config proj.

(** The value llh2xyz returns, on both branches of its test. *)
Lemma llh2xyz_value (lat long h : R) :
  let phi := Py.radians lat in
  let lam := Py.radians long in
  let nu := proj0 proj / sqrt (1 - ecc1 c ^ 2 * sin phi ^ 2) in
  llh2xyz proj c lat long h
  = Ok ((nu + h) * cos phi * cos lam,
        (nu + h) * cos phi * sin lam,
        (semi_min c ^ 2 / proj0 proj ^ 2 * nu + h) * sin phi).
Proof.
  intros phi lam nu.
  destruct Hvalid as (Ha & Hi & _ & _).
  destruct (load_ellipsoid proj c Hload Hi) as (He2 & _ & Hsq & _).
  destruct (load_fields proj c Hload) as (_ & Em & _).
  unfold llh2xyz; fold phi lam.
  assert (Hnu : (if Req_dec_T phi 0 then Ok (proj0 proj)
                 else s <- Py.sqrt (1 - ecc1sq c * sin phi ^ 2) ;;
                      Py.div (semi_maj c) s) = Ok nu).
  { unfold nu; rewrite Hsq, Em.
    destruct (Req_dec_T phi 0) as [E | NE].
    - rewrite E, sin_0.
      replace (1 - ecc1sq c * 0 ^ 2) with 1 by ring.
      rewrite sqrt_1; f_equal; field.
    - pose proof (curvature_arg_pos (ecc1sq c) phi He2) as Hpos.
      rewrite sqrt_ok by lra; cbn [bind].
      rewrite div_ok by (apply Rgt_not_eq, sqrt_lt_R0; lra).
      reflexivity. }
  rewrite Hnu; cbn [bind].
  rewrite Em, div_ok by (apply pow_nonzero; lra); cbn [bind].
  reflexivity.
Qed.

Lemma llh2xyz_equator (long h : R) :
  llh2xyz proj c 0 long h
  = Ok ((proj0 proj + h) * cos (Py.radians long),
        (proj0 proj + h) * sin (Py.radians long), 0).
Proof.
  rewrite llh2xyz_value.
  assert (E0 : Py.radians 0 = 0) by (apply radians_0; reflexivity).
  rewrite E0, sin_0, cos_0.
  replace (1 - ecc1 c ^ 2 * 0 ^ 2) with 1 by ring.
  rewrite sqrt_1; unfold Rdiv; rewrite Rinv_1.
  f_equal; f_equal; [f_equal |]; ring.
Qed.

End Llh2xyz.

(** C7.  llh2xyz is closed-form: on every input it returns
    [x = (nu + h) cos lat cos long], [y = (nu + h) cos lat sin long] and
    [z = ((b^2 / a^2) nu + h) sin lat] with
    [nu = a / sqrt(1 - e1^2 sin^2 lat)] (angles converted to radians), where
    [a] is the configured semi-major axis, [b = a (1 - f)] and
    [e1^2 = f (2 - f)]; at [lat = 0] the value used for [nu] is [a] itself.
    The function has no loop and raises no exception. *)
Theorem llh2xyz_closed_form (proj : Projection) (c : Transform.Constants)
    (lat long h : R) :
  Transform.load proj = Ok c -> valid_config proj ->
  let a := proj0 proj in
  let b := a * (1 - Transform.f c) in
  let e1 := Transform.ecc1 c in
  let phi := Py.radians lat in
  let lam := Py.radians long in
  let nu := a / sqrt (1 - e1 ^ 2 * sin phi ^ 2) in
  Transform.llh2xyz proj c lat long h
  = Ok ((nu + h) * cos phi * cos lam,
        (nu + h) * cos phi * sin lam,
        (b ^ 2 / a ^ 2 * nu + h) * sin phi)
  /\ e1 ^ 2 = Transform.f c * (2 - Transform.f c)
  /\ Transform.llh2xyz proj c 0 long h
     = Ok ((a + h) * cos lam, (a + h) * sin lam, 0).
Proof.
  intros Hl Hv a b e1 phi lam nu.
  destruct (load_fields proj c Hl) as (_ & _ & Eb & Ee & _).
  destruct Hv as (Ha & Hi & Hk & Hw).
  destruct (load_ellipsoid proj c Hl Hi) as (_ & _ & Hsq & _).
  assert (Hv : valid_config proj) by (repeat split; tauto).
  split; [| split].
  - unfold b, a; rewrite <- Eb.
    apply llh2xyz_value; assumption.
  - unfold e1; rewrite Hsq; exact Ee.
  - apply llh2xyz_equator; assumption.
Qed.

Lemma llh2xyz_closed_form_witness :
  exists c,
    Transform.load grs80 = Ok c
    /\ Transform.llh2xyz grs80 c 0 0 0
       = Ok ((6378137 + 0) * cos (Py.radians 0),
             (6378137 + 0) * sin (Py.radians 0), 0).
Proof.
  destruct grs80_loads as [c Hc].
  exists c; split; [exact Hc |].
  destruct (llh2xyz_closed_form grs80 c 0 0 0 Hc grs80_valid) as (_ & _ & H).
  exact H.
Defined.

(** ** Latitude range *)

(** C3, counterexample.  At latitude 100, outside [-90, 90], both llh2xyz
    and geo2grid return a result instead of raising. *)
Lemma latitude_100_accepted :
  exists c xyz zen,
    Transform.load grs80 = Ok c
    /\ 90 < 100
    /\ Transform.llh2xyz grs80 c 100 0 0 = Ok xyz
    /\ Transform.geo2grid grs80 c 100 0 = Ok zen.
Proof.
  destruct grs80_loads as [c Hc].
  destruct (geo2grid_ok grs80 c Hc grs80_valid 100 0) as (e & n & _ & Hg).
  exists c; eexists; eexists.
  split; [exact Hc |].
  split; [lra |].
  split; [apply (llh2xyz_value grs80 c Hc grs80_valid) | exact Hg].
Qed.

(** ** Configuration time *)

(** C5, counterexample.  A configuration with semi-major axis -1 and inverse
    flattening 0.75 is imported without any exception. *)
Lemma invalid_ellipsoid_accepted :
  exists c,
    -1 <= 0 /\ 0.75 <= 1
    /\ Transform.load (mkProjection (-1) 0.75 500000 10000000 0.9996 6 (-177))
       = Ok c.
Proof.
  destruct (load_ok (mkProjection (-1) 0.75 500000 10000000 0.9996 6 (-177)))
    as [c Hc]; try (simpl; lra).
  exists c; repeat split; [lra | lra | exact Hc].
Qed.

(** C5, amended.  The module makes no ellipsoid sanity check and has no
    invalid-ellipsoid error: for every whole-number semi-major axis up to
    1e300 in magnitude (positive, zero or negative; the module multiplies
    the axis with a Decimal and divides it by a float, which a Python int
    supports) the constants are derived at import without any exception for
    every inverse flattening from 0.51 to 0.99 and from 1.01 upwards, and
    [semi_maj] is the axis as configured. *)
Theorem load_unchecked (proj : Projection) (a : Z) :
  proj0 proj = IZR a -> Rabs (IZR a) <= 1e300 ->
  0.51 <= proj1 proj <= 0.99 \/ 1.01 <= proj1 proj ->
  exists c, Transform.load proj = Ok c
            /\ Transform.semi_maj c = IZR a.
Proof.
  intros Ha _ H.
  assert (H1 : / 2 < proj1 proj) by lra.
  assert (H2 : proj1 proj <> 1) by lra.
  destruct (load_ok proj H1 H2) as [c Hc].
  exists c; split; [assumption |].
  rewrite <- Ha.
  now destruct (load_fields proj c Hc) as (_ & Em & _).
Qed.

Lemma load_unchecked_witness :
  exists c,
    Transform.load (mkProjection (-1) 0.75 500000 10000000 0.9996 6 (-177))
    = Ok c /\ Transform.semi_maj c = IZR (-1).
Proof.
  apply (load_unchecked
           (mkProjection (-1) 0.75 500000 10000000 0.9996 6 (-177)) (-1)).
  - reflexivity.
  - rewrite Rabs_left by lra; lra.
  - left; simpl; lra.
Defined.

(** ** xyz2llh *)

(** [s / sqrt(1 - e2 s^2)] is monotone on [-1, 1]. *)
Lemma curvature_ratio_mono (e2 s s' : R) :
  0 < e2 < 1 -> -1 <= s -> s <= s' -> s' <= 1 ->
  s / sqrt (1 - e2 * s ^ 2) <= s' / sqrt (1 - e2 * s' ^ 2).
Proof.
  intros He Hs Hss Hs'.
  assert (Hq : 0 <= (1 - s) * (1 + s)) by (apply Rmult_le_pos; lra).
  assert (Hq' : 0 <= (1 - s') * (1 + s')) by (apply Rmult_le_pos; lra).
  assert (Hd : 0 < 1 - e2 * s ^ 2) by nra.
  assert (Hd' : 0 < 1 - e2 * s' ^ 2) by nra.
  pose proof (sqrt_lt_R0 _ Hd) as HD.
  pose proof (sqrt_lt_R0 _ Hd') as HD'.
  pose proof (sqrt_sqrt (1 - e2 * s ^ 2) (Rlt_le _ _ Hd)) as ED.
  pose proof (sqrt_sqrt (1 - e2 * s' ^ 2) (Rlt_le _ _ Hd')) as ED'.
  set (D := sqrt (1 - e2 * s ^ 2)) in *.
  set (D' := sqrt (1 - e2 * s' ^ 2)) in *.
  assert (Hcross : s * D' <= s' * D).
  { destruct (Rle_dec 0 s) as [P | P].
    - assert (Hsq : s ^ 2 <= s' ^ 2) by nra.
      assert (HDD : D' <= D) by (apply sqrt_le_1; nra).
      nra.
    - destruct (Rle_dec s' 0) as [Q | Q].
      + assert (Hsq : s' ^ 2 <= s ^ 2) by nra.
        assert (HDD : D <= D') by (apply sqrt_le_1; nra).
        nra.
      + nra. }
  apply Rmult_le_reg_r with (D * D'); [nra |].
  replace (s / D * (D * D')) with (s * D') by (field; lra).
  replace (s' / D' * (D * D')) with (s' * D) by (field; lra).
  exact Hcross.
Qed.

Lemma atan_mono (x y : R) : x <= y -> atan x <= atan y.
Proof.
  intros [H | ->]; [left; now apply atan_increasing | right; reflexivity].
Qed.

Lemma atan_range (x : R) : - (PI / 2) < atan x < PI / 2.
Proof.
  pose proof (atan_bound x); lra.
Qed.

Section Xyz2llh.

Import Transform.

Variables (proj : Projection) (c : Constants).
Hypothesis Hload : load proj = Ok c.
Hypothesis Hvalid : valid_config proj.

Variables (z p : R).
Hypothesis Hp : 0 < p.

Local Abbreviation tol := 1e-10.

Lemma ellipsoid_facts : 0 < ecc1sq c < 1 /\ 0 < semi_maj c.
Proof.
  destruct Hvalid as (Ha & Hi & _ & _).
  destruct (load_ellipsoid proj c Hload Hi) as (He & _).
  destruct (load_radius proj c Hload Hi Ha) as (Hm & _).
  tauto.
Qed.

(** One pass of the loop body applies the fixed-point map. *)
Lemma xyz2llh_body_ok (lat : R) :
  xyz2llh_body c z p lat
  = Ok (bowring c z p lat, lat - bowring c z p lat).
Proof.
  destruct ellipsoid_facts as [He Hm].
  pose proof (curvature_arg_pos (ecc1sq c) lat He) as Hpos.
  unfold xyz2llh_body, bowring, prime_vertical.
  rewrite sqrt_ok by lra; cbn [bind].
  rewrite div_ok by (apply Rgt_not_eq, sqrt_lt_R0; lra); cbn [bind].
  rewrite div_ok by lra; cbn [bind].
  reflexivity.
Qed.

Lemma bowring_range (lat : R) :
  - (PI / 2) < bowring c z p lat < PI / 2.
Proof.
  apply atan_range.
Qed.

(** The fixed-point map is monotone between the poles. *)
Lemma bowring_mono (l l' : R) :
  - (PI / 2) <= l -> l <= l' -> l' <= PI / 2 ->
  bowring c z p l <= bowring c z p l'.
Proof.
  intros Hl Hll Hl'.
  destruct ellipsoid_facts as [He Hm].
  assert (Hsin : sin l <= sin l') by (apply sin_incr_1; lra).
  destruct (SIN_bound l) as [Hb _].
  destruct (SIN_bound l') as [_ Hb'].
  pose proof (curvature_ratio_mono (ecc1sq c) (sin l) (sin l') He
                Hb Hsin Hb') as Hr.
  unfold bowring, prime_vertical.
  apply atan_mono.
  apply Rmult_le_compat_r; [left; apply Rinv_0_lt_compat; lra |].
  apply Rplus_le_compat_l.
  replace (semi_maj c / sqrt (1 - ecc1sq c * sin l ^ 2) * ecc1sq c * sin l)
    with (semi_maj c * ecc1sq c * (sin l / sqrt (1 - ecc1sq c * sin l ^ 2)))
    by (unfold Rdiv; ring).
  replace (semi_maj c / sqrt (1 - ecc1sq c * sin l' ^ 2)
           * ecc1sq c * sin l')
    with (semi_maj c * ecc1sq c
          * (sin l' / sqrt (1 - ecc1sq c * sin l' ^ 2)))
    by (unfold Rdiv; ring).
  apply Rmult_le_compat_l; [nra | exact Hr].
Qed.

(** The loop stops at once when the last step was within the tolerance. *)
Lemma xyz2llh_while_exit (fuel : nat) (lat ic : R) :
  Rabs ic <= tol -> xyz2llh_while c fuel z p lat ic = Some (Ok lat).
Proof.
  intros Hic.
  destruct fuel; simpl;
    (destruct (Rgt_dec (Rabs ic) 1e-10) as [G | _];
     [lra | reflexivity]).
Qed.

(** One more unit of fuel runs the body once when the test succeeds. *)
Lemma xyz2llh_while_step (fuel : nat) (lat ic : R) :
  tol < Rabs ic ->
  xyz2llh_while c (S fuel) z p lat ic
  = xyz2llh_while c fuel z p (bowring c z p lat)
      (lat - bowring c z p lat).
Proof.
  intros Hic; simpl.
  destruct (Rgt_dec (Rabs ic) 1e-10) as [_ | G];
    [| lra].
  rewrite xyz2llh_body_ok; reflexivity.
Qed.

(** Rising iterates: every pass that does not end the loop moves the
    latitude up by more than the tolerance, and the latitude stays below
    a right angle. *)
Lemma xyz2llh_while_rising (fuel : nat) :
  forall lat ic,
    - (PI / 2) < lat < PI / 2 ->
    lat <= bowring c z p lat ->
    PI / 2 - lat < INR fuel * tol ->
    exists r, - (PI / 2) < r < PI / 2
              /\ xyz2llh_while c fuel z p lat ic = Some (Ok r).
Proof.
  induction fuel as [| k IH]; intros lat ic Hlat Hup Hfuel.
  - simpl in Hfuel; lra.
  - destruct (Rle_dec (Rabs ic) tol) as [Hic | Hic].
    { exists lat; split; [assumption | now apply xyz2llh_while_exit]. }
    rewrite xyz2llh_while_step by lra.
    set (lat' := bowring c z p lat) in *.
    destruct (Rle_dec (Rabs (lat - lat')) tol) as [Hd | Hd].
    { exists lat'; split; [apply bowring_range |].
      now apply xyz2llh_while_exit. }
    apply IH.
    + apply bowring_range.
    + pose proof (bowring_range lat) as Hr; fold lat' in Hr.
      apply bowring_mono; lra.
    + rewrite S_INR in Hfuel.
      rewrite Rabs_left1 in Hd by lra.
      lra.
Qed.

(** Falling iterates, symmetrically. *)
Lemma xyz2llh_while_falling (fuel : nat) :
  forall lat ic,
    - (PI / 2) < lat < PI / 2 ->
    bowring c z p lat <= lat ->
    lat + PI / 2 < INR fuel * tol ->
    exists r, - (PI / 2) < r < PI / 2
              /\ xyz2llh_while c fuel z p lat ic = Some (Ok r).
Proof.
  induction fuel as [| k IH]; intros lat ic Hlat Hdown Hfuel.
  - simpl in Hfuel; lra.
  - destruct (Rle_dec (Rabs ic) tol) as [Hic | Hic].
    { exists lat; split; [assumption | now apply xyz2llh_while_exit]. }
    rewrite xyz2llh_while_step by lra.
    set (lat' := bowring c z p lat) in *.
    destruct (Rle_dec (Rabs (lat - lat')) tol) as [Hd | Hd].
    { exists lat'; split; [apply bowring_range |].
      now apply xyz2llh_while_exit. }
    apply IH.
    + apply bowring_range.
    + pose proof (bowring_range lat) as Hr; fold lat' in Hr.
      apply bowring_mono; lra.
    + rewrite S_INR in Hfuel.
      rewrite Rabs_right in Hd by lra.
      lra.
Qed.

(** From any starting latitude between the poles the loop ends within
    [PI / tol] passes. *)
Lemma xyz2llh_while_terminates (fuel : nat) (lat ic : R) :
  - (PI / 2) < lat < PI / 2 ->
  PI <= INR fuel * tol ->
  exists r, - (PI / 2) < r < PI / 2
            /\ xyz2llh_while c fuel z p lat ic = Some (Ok r).
Proof.
  intros Hlat Hfuel.
  destruct (Rle_dec lat (bowring c z p lat)) as [Hup | Hdown].
  - apply xyz2llh_while_rising; try assumption; lra.
  - apply xyz2llh_while_falling; try assumption; lra.
Qed.

End Xyz2llh.

Lemma square_ok (v : R) : in_double_range v -> Py.square v = Ok (v ^ 2).
Proof.
  intros [-> | Hv]; unfold Py.square.
  - destruct (Rlt_dec 1.7976931348623157e308 (0 * 0)) as [H | _]; [lra |].
    destruct (Rlt_dec (0 * 0) 2.4703282292062327e-324) as [_ | H];
      [| lra].
    f_equal; ring.
  - assert (Hsq : 1e-300 <= v * v <= 1e300).
    { unfold Rabs in Hv; destruct (Rcase_abs v); nra. }
    destruct (Rlt_dec 1.7976931348623157e308 (v * v)) as [H | _]; [lra |].
    destruct (Rlt_dec (v * v) 2.4703282292062327e-324) as [H | _];
      [lra | reflexivity].
Qed.

Lemma square_underflow (v : R) :
  v * v < 2.4703282292062327e-324 -> Py.square v = Ok 0.
Proof.
  intros Hv; unfold Py.square.
  destruct (Rlt_dec 1.7976931348623157e308 (v * v)) as [H | _]; [lra |].
  destruct (Rlt_dec (v * v) 2.4703282292062327e-324) as [_ | H];
    [reflexivity | contradiction].
Qed.

Lemma square_overflow (v : R) :
  1.7976931348623157e308 < v * v -> Py.square v = Raise OverflowError.
Proof.
  intros Hv; unfold Py.square.
  destruct (Rlt_dec 1.7976931348623157e308 (v * v)) as [_ | H];
    [reflexivity | contradiction].
Qed.

(** Squares that both underflow leave [p = 0]. *)
Lemma xyz2llh_init_underflow (c : Transform.Constants) (x y z : R) :
  x * x < 2.4703282292062327e-324 -> y * y < 2.4703282292062327e-324 ->
  Transform.xyz2llh_init c x y z = Raise ZeroDivisionError.
Proof.
  intros Hx Hy.
  unfold Transform.xyz2llh_init.
  rewrite !square_underflow by assumption; cbn [bind].
  replace (0 + 0) with 0 by ring.
  rewrite sqrt_ok by lra; cbn [bind].
  rewrite sqrt_0, div_zero; reflexivity.
Qed.

Lemma xyz2llh_init_polar (c : Transform.Constants) (z : R) :
  Transform.xyz2llh_init c 0 0 z = Raise ZeroDivisionError.
Proof.
  apply xyz2llh_init_underflow; lra.
Qed.

Lemma xyz2llh_on_axis (c : Transform.Constants) (fuel : nat) (z : R) :
  Transform.xyz2llh c fuel 0 0 z = Some (Raise ZeroDivisionError).
Proof.
  unfold Transform.xyz2llh.
  rewrite xyz2llh_init_polar; reflexivity.
Qed.

Lemma xyz2llh_init_ok (c : Transform.Constants) (x y z : R) :
  in_double_range x -> in_double_range y -> 0 < x ^ 2 + y ^ 2 ->
  Transform.xyz2llh_init c x y z
  = Ok (sqrt (x ^ 2 + y ^ 2),
        atan (z * (1 + Transform.ecc2sq c) / sqrt (x ^ 2 + y ^ 2))).
Proof.
  intros Hx Hy Hp.
  unfold Transform.xyz2llh_init.
  rewrite !square_ok by assumption; cbn [bind].
  rewrite sqrt_ok by lra; cbn [bind].
  rewrite div_ok by (apply Rgt_not_eq, sqrt_lt_R0; lra); cbn [bind].
  reflexivity.
Qed.

(** Whenever the first lines return, [p] is positive and the initial
    latitude is an arctangent. *)
Lemma xyz2llh_init_inv (c : Transform.Constants) (x y z p latinit : R) :
  Transform.xyz2llh_init c x y z = Ok (p, latinit) ->
  0 < p /\ latinit = atan (z * (1 + Transform.ecc2sq c) / p).
Proof.
  unfold Transform.xyz2llh_init.
  destruct (Py.square x) as [x2 | e]; cbn [bind]; [| discriminate].
  destruct (Py.square y) as [y2 | e]; cbn [bind]; [| discriminate].
  unfold Py.sqrt, Py.div.
  destruct (Rlt_dec (x2 + y2) 0) as [H | H]; cbn [bind]; [discriminate |].
  destruct (Req_dec_T (sqrt (x2 + y2)) 0) as [E | NE]; cbn [bind];
    [discriminate |].
  intros Heq; injection Heq as <- <-.
  split; [| reflexivity].
  pose proof (sqrt_pos (x2 + y2)); lra.
Qed.

(** The first lines on the mirror image of a point. *)
Lemma xyz2llh_init_opp (c : Transform.Constants) (x y z p latinit : R) :
  Transform.xyz2llh_init c x y z = Ok (p, latinit) ->
  Transform.xyz2llh_init c x y (- z) = Ok (p, - latinit).
Proof.
  unfold Transform.xyz2llh_init.
  destruct (Py.square x) as [x2 | e]; cbn [bind]; [| discriminate].
  destruct (Py.square y) as [y2 | e]; cbn [bind]; [| discriminate].
  unfold Py.sqrt, Py.div.
  destruct (Rlt_dec (x2 + y2) 0) as [H | H]; cbn [bind]; [discriminate |].
  destruct (Req_dec_T (sqrt (x2 + y2)) 0) as [E | NE]; cbn [bind];
    [discriminate |].
  intros Heq; injection Heq as <- <-.
  rewrite <- atan_opp.
  do 3 f_equal; unfold Rdiv; ring.
Qed.

(** Forty thousand million passes are more than [PI / 1e-10]. *)
Lemma enough_fuel : exists fuel : nat, INR fuel = 40000000000.
Proof.
  exists (Z.to_nat 40000000000).
  rewrite INR_IZR_INZ, Z2Nat.id by lia; reflexivity.
Qed.

(** C10, counterexample.  The point [(1e-200, 0, 1)] is off the polar axis,
    yet its squares underflow, [p] is 0 and the division that computes the
    initial latitude raises ZeroDivisionError.  At [(1e200, 0, 1)] the
    square overflows and the division is not reached at all. *)
Lemma xyz2llh_underflow_raises :
  exists c,
    Transform.load grs80 = Ok c
    /\ 0 < 1e-200 ^ 2 + 0 ^ 2
    /\ Transform.xyz2llh c 5 1e-200 0 1 = Some (Raise ZeroDivisionError)
    /\ 0 < 1e200 ^ 2 + 0 ^ 2
    /\ Transform.xyz2llh c 5 1e200 0 1 = Some (Raise OverflowError).
Proof.
  destruct grs80_loads as [c Hc].
  exists c; split; [exact Hc |].
  split; [lra |].
  split.
  - unfold Transform.xyz2llh.
    rewrite xyz2llh_init_underflow by lra; reflexivity.
  - split; [lra |].
    unfold Transform.xyz2llh, Transform.xyz2llh_init.
    rewrite square_overflow by lra; reflexivity.
Qed.

(** C10, amended.  xyz2llh is partial at the polar axis: with [x = 0] and
    [y = 0] the division that computes the initial latitude has divisor
    [p = 0] and the function raises ZeroDivisionError instead of returning.
    Off the axis the division is defined, with value
    [atan(z (1 + e2^2) / p)], whenever [x] and [y] are in the range where
    their squares neither overflow nor underflow (each is 0 or between
    1e-150 and 1e150 in magnitude). *)
Theorem xyz2llh_polar_axis (c : Transform.Constants) :
  (forall fuel z,
     Transform.xyz2llh c fuel 0 0 z = Some (Raise ZeroDivisionError))
  /\ (forall x y z,
        in_double_range x -> in_double_range y ->
        0 < x ^ 2 + y ^ 2 ->
        Transform.xyz2llh_init c x y z
        = Ok (sqrt (x ^ 2 + y ^ 2),
              atan (z * (1 + Transform.ecc2sq c) / sqrt (x ^ 2 + y ^ 2)))).
Proof.
  split.
  - intros fuel z; apply xyz2llh_on_axis.
  - intros x y z; apply xyz2llh_init_ok.
Qed.

Lemma xyz2llh_polar_axis_witness :
  exists c,
    Transform.load grs80 = Ok c
    /\ Transform.xyz2llh c 5 0 0 6356752 = Some (Raise ZeroDivisionError)
    /\ Transform.xyz2llh_init c 3 4 0
       = Ok (sqrt (3 ^ 2 + 4 ^ 2),
             atan (0 * (1 + Transform.ecc2sq c) / sqrt (3 ^ 2 + 4 ^ 2))).
Proof.
  destruct grs80_loads as [c Hc].
  destruct (xyz2llh_polar_axis c) as [Hpole Hoff].
  exists c; split; [exact Hc |].
  split; [apply Hpole |].
  apply Hoff; [right | right |]; rewrite ?Rabs_right; lra.
Defined.

(** ** grid2geo *)

Lemma gs_terms (k : nat) (x : R) : 2 * INR k * x = IZR (2 * Z.of_nat k) * x.
Proof.
  rewrite mult_IZR, <- INR_IZR_INZ; reflexivity.
Qed.

(** The beta series written out term by term, in the order of the source. *)
Lemma gs_xi1_unfold (c : Transform.Constants) (xi eta : R) :
  gs_xi1 c xi eta
  = xi + Transform.b2 c * sin (2 * xi) * cosh (2 * eta)
    + Transform.b4 c * sin (4 * xi) * cosh (4 * eta)
    + Transform.b6 c * sin (6 * xi) * cosh (6 * eta)
    + Transform.b8 c * sin (8 * xi) * cosh (8 * eta)
    + Transform.b10 c * sin (10 * xi) * cosh (10 * eta)
    + Transform.b12 c * sin (12 * xi) * cosh (12 * eta)
    + Transform.b14 c * sin (14 * xi) * cosh (14 * eta)
    + Transform.b16 c * sin (16 * xi) * cosh (16 * eta).
Proof.
  unfold gs_xi1, series, beta_term.
  rewrite !gs_terms.
  cbn [Z.of_nat Pos.of_succ_nat Pos.succ Z.mul Pos.mul Pos.add].
  ring.
Qed.

Lemma gs_eta1_unfold (c : Transform.Constants) (xi eta : R) :
  gs_eta1 c xi eta
  = eta + Transform.b2 c * cos (2 * xi) * sinh (2 * eta)
    + Transform.b4 c * cos (4 * xi) * sinh (4 * eta)
    + Transform.b6 c * cos (6 * xi) * sinh (6 * eta)
    + Transform.b8 c * cos (8 * xi) * sinh (8 * eta)
    + Transform.b10 c * cos (10 * xi) * sinh (10 * eta)
    + Transform.b12 c * cos (12 * xi) * sinh (12 * eta)
    + Transform.b14 c * cos (14 * xi) * sinh (14 * eta)
    + Transform.b16 c * cos (16 * xi) * sinh (16 * eta).
Proof.
  unfold gs_eta1, series, beta_term.
  rewrite !gs_terms.
  cbn [Z.of_nat Pos.of_succ_nat Pos.succ Z.mul Pos.mul Pos.add].
  ring.
Qed.

Lemma sqrt_1_sq_gt (t : R) : Rabs t < sqrt (1 + t ^ 2).
Proof.
  pose proof (sqrt_1_sq_pos t) as Hs.
  pose proof (sqrt_1_sq_sq t) as Hq.
  unfold Rabs; destruct (Rcase_abs t); nra.
Qed.

(** The derivative used by the Newton step is positive, so the step never
    divides by zero. *)
Lemma newton_df_pos (e t : R) : 0 < e < 1 -> 0 < newton_df e t.
Proof.
  intros He; unfold newton_df.
  set (s := sigma_ref e t).
  pose proof (sqrt_1_sq_gt s) as Hs.
  pose proof (sqrt_1_sq_gt t) as Ht.
  pose proof (Rabs_pos s) as Hs0.
  pose proof (Rabs_pos t) as Ht0.
  pose proof (pow2_ge_0 t) as Ht2.
  apply Rmult_lt_0_compat.
  - assert (Hprod : Rabs s * Rabs t < sqrt (1 + s ^ 2) * sqrt (1 + t ^ 2))
      by nra.
    rewrite <- Rabs_mult in Hprod.
    pose proof (Rle_abs (s * t)); lra.
  - assert (He2 : 0 < 1 - e ^ 2) by nra.
    assert (Hden : 0 <= (1 - e ^ 2) * t ^ 2) by (apply Rmult_le_pos; lra).
    apply Rdiv_lt_0_compat; [| lra].
    apply Rmult_lt_0_compat; [lra | apply sqrt_1_sq_pos].
Qed.

Section Grid2geo.

Import Transform.

Variables (proj : Projection) (c : Constants).
Hypothesis Hload : load proj = Ok c.
Hypothesis Hvalid : valid_config proj.

Lemma eccentricity_facts :
  0 < ecc1 c < 1 /\ ecc1sq c = ecc1 c ^ 2 /\ A c <> 0 /\ proj4 proj <> 0.
Proof.
  destruct Hvalid as (Ha & Hi & Hk & _).
  destruct (load_ellipsoid proj c Hload Hi) as (_ & He & Hsq & _).
  destruct (load_radius proj c Hload Hi Ha) as (_ & HA).
  repeat split; tauto || lra.
Qed.

Lemma sigma_ok (t : R) : sigma c t = Ok (sigma_ref (ecc1 c) t).
Proof.
  destruct eccentricity_facts as (He & _).
  pose proof (sqrt_1_sq_pos t) as Hs.
  pose proof (scaled_ratio_bound (ecc1 c) t He) as Hu.
  unfold sigma, sigma_ref, artanh.
  rewrite sqrt_ok by (pose proof (pow2_ge_0 t); lra); cbn [bind].
  rewrite div_ok by lra; cbn [bind].
  rewrite div_ok by lra; cbn [bind].
  rewrite log_ok by (apply Rdiv_lt_0_compat; lra); cbn [bind].
  do 2 f_equal; lra.
Qed.

Lemma ftn_ok (t1 t : R) : ftn c t1 t = Ok (newton_f (ecc1 c) t1 t).
Proof.
  unfold ftn, newton_f.
  rewrite sigma_ok; cbn [bind].
  rewrite sqrt_ok
    by (pose proof (pow2_ge_0 (sigma_ref (ecc1 c) t)); lra); cbn [bind].
  rewrite sqrt_ok by (pose proof (pow2_ge_0 t); lra); cbn [bind].
  reflexivity.
Qed.

Lemma f1tn_ok (t : R) : f1tn c t = Ok (newton_df (ecc1 c) t).
Proof.
  destruct eccentricity_facts as (He & Hsq & _).
  unfold f1tn, newton_df.
  rewrite sigma_ok; cbn [bind].
  rewrite sqrt_ok
    by (pose proof (pow2_ge_0 (sigma_ref (ecc1 c) t)); lra); cbn [bind].
  rewrite sqrt_ok by (pose proof (pow2_ge_0 t); lra); cbn [bind].
  rewrite Hsq.
  assert (He2 : 0 < 1 - ecc1 c ^ 2) by nra.
  assert (Hden : 0 <= (1 - ecc1 c ^ 2) * t ^ 2)
    by (apply Rmult_le_pos; [lra | apply pow2_ge_0]).
  rewrite div_ok by lra; cbn [bind].
  reflexivity.
Qed.

Lemma grid2geo_value (zone : Z) (easting northing : R) :
  let xi := (northing - proj3 proj) / proj4 proj / A c in
  let eta := (easting - proj2 proj) / proj4 proj / A c in
  let xi1 := gs_xi1 c xi eta in
  let eta1 := gs_eta1 c xi eta in
  let t1 := sin xi1 / sqrt (sinh eta1 ^ 2 + cos xi1 ^ 2) in
  cos xi1 <> 0 ->
  grid2geo proj c zone easting northing
  = Ok (Py.round
          (Py.degrees
             (atan (Nat.iter 3 (newton_step (ecc1 c) t1) t1))) 11,
        Py.round
          (IZR zone * proj5 proj + proj6 proj - proj5 proj
           + Py.degrees (atan (sinh eta1 / cos xi1))) 11).
Proof.
  intros xi eta xi1 eta1 t1 Hcos.
  destruct eccentricity_facts as (He & _ & HA & Hk).
  unfold grid2geo.
  rewrite !(div_ok _ (proj4 proj)) by assumption; cbn [bind].
  rewrite !(div_ok _ (A c)) by assumption; cbn [bind].
  fold xi eta.
  rewrite <- gs_xi1_unfold, <- gs_eta1_unfold.
  fold xi1 eta1.
  assert (Hsum : 0 < sinh eta1 ^ 2 + cos xi1 ^ 2).
  { pose proof (pow2_ge_0 (sinh eta1)).
    assert (0 < cos xi1 ^ 2).
    { pose proof (Rsqr_pos_lt _ Hcos) as Hq; unfold Rsqr in Hq; lra. }
    lra. }
  rewrite sqrt_ok by lra; cbn [bind].
  rewrite div_ok by (apply Rgt_not_eq, sqrt_lt_R0; lra); cbn [bind].
  fold t1.
  do 3 (rewrite ftn_ok; cbn [bind]; rewrite f1tn_ok; cbn [bind];
        rewrite div_ok by (apply Rgt_not_eq, newton_df_pos; exact He);
        cbn [bind]).
  rewrite div_ok by assumption; cbn [bind].
  reflexivity.
Qed.

End Grid2geo.

(** ** The Newton iteration of grid2geo uses the derivative of its function *)

(** Derivative rules in pointwise form. *)
Section Rules.
Variables (g h : R -> R) (x lg lh : R).
Hypothesis Hg : derivable_pt_lim g x lg.
Hypothesis Hh : derivable_pt_lim h x lh.

Lemma D_value (l : R) : l = lg -> derivable_pt_lim g x l.
Proof. now intros ->. Qed.

Lemma D_plus : derivable_pt_lim (fun t => g t + h t) x (lg + lh).
Proof. exact (derivable_pt_lim_plus g h x lg lh Hg Hh). Qed.

Lemma D_minus : derivable_pt_lim (fun t => g t - h t) x (lg - lh).
Proof. exact (derivable_pt_lim_minus g h x lg lh Hg Hh). Qed.

Lemma D_mult : derivable_pt_lim (fun t => g t * h t) x (lg * h x + g x * lh).
Proof. exact (derivable_pt_lim_mult g h x lg lh Hg Hh). Qed.

Lemma D_div : h x <> 0 ->
  derivable_pt_lim (fun t => g t / h t) x
    ((lg * h x - lh * g x) / Rsqr (h x)).
Proof. intros Hx; exact (derivable_pt_lim_div g h x lg lh Hg Hh Hx). Qed.

Lemma D_sqrt : 0 < g x ->
  derivable_pt_lim (fun t => sqrt (g t)) x (/ (2 * sqrt (g x)) * lg).
Proof.
  intros Hx.
  exact (derivable_pt_lim_comp g sqrt x lg _ Hg
           (derivable_pt_lim_sqrt (g x) Hx)).
Qed.

Lemma D_ln : 0 < g x ->
  derivable_pt_lim (fun t => ln (g t)) x (/ g x * lg).
Proof.
  intros Hx.
  exact (derivable_pt_lim_comp g ln x lg _ Hg
           (derivable_pt_lim_ln (g x) Hx)).
Qed.

Lemma D_sinh : derivable_pt_lim (fun t => sinh (g t)) x (cosh (g x) * lg).
Proof.
  exact (derivable_pt_lim_comp g sinh x lg _ Hg
           (derivable_pt_lim_sinh (g x))).
Qed.
End Rules.

Lemma D_const (a x : R) : derivable_pt_lim (fun _ => a) x 0.
Proof. exact (derivable_pt_lim_const a x). Qed.

Lemma D_id (x : R) : derivable_pt_lim (fun t => t) x 1.
Proof. exact (derivable_pt_lim_id x). Qed.

Lemma D_sq (x : R) : derivable_pt_lim (fun t => 1 + t ^ 2) x (2 * x).
Proof.
  apply D_value with (lg := 0 + INR 2 * x ^ Nat.pred 2); [| simpl; ring].
  apply (D_plus (fun _ => 1) (fun t => t ^ 2)); [apply D_const |].
  apply derivable_pt_lim_pow.
Qed.

Lemma cosh_sinh (x : R) : cosh x = sqrt (1 + sinh x ^ 2).
Proof.
  assert (E : cosh x * cosh x = 1 + sinh x ^ 2).
  { unfold cosh, sinh.
    assert (H : exp x * exp (- x) = 1) by (rewrite <- exp_plus, Rplus_opp_r; apply exp_0).
    field_simplify. nra. }
  assert (Hpos : 0 < cosh x).
  { unfold cosh; pose proof (exp_pos x); pose proof (exp_pos (- x)); lra. }
  rewrite <- E. symmetry; apply sqrt_square; lra.
Qed.

Section Newton.
Variable e : R.
Hypothesis He : 0 < e < 1.

Lemma D_root (t : R) :
  derivable_pt_lim (fun t => sqrt (1 + t ^ 2)) t (t / sqrt (1 + t ^ 2)).
Proof.
  pose proof (sqrt_1_sq_pos t) as Hs.
  apply D_value with (lg := / (2 * sqrt (1 + t ^ 2)) * (2 * t));
    [| field; lra].
  apply (D_sqrt (fun t => 1 + t ^ 2)); [apply D_sq |].
  pose proof (pow2_ge_0 t); lra.
Qed.

Lemma D_ratio (t : R) :
  derivable_pt_lim (fun t => e * t / sqrt (1 + t ^ 2)) t
    (e / (sqrt (1 + t ^ 2) * (1 + t ^ 2))).
Proof.
  pose proof (sqrt_1_sq_pos t) as Hs.
  pose proof (sqrt_1_sq_sq t) as Hq.
  eapply D_value.
  - apply (D_div (fun t => e * t) (fun t => sqrt (1 + t ^ 2))).
    + apply (D_mult (fun _ => e) (fun t => t)); [apply D_const | apply D_id].
    + apply D_root.
    + lra.
  - cbv beta; unfold Rsqr.
    set (s := sqrt (1 + t ^ 2)) in *.
    assert (Ht : t * t = s * s - 1) by nra.
    rewrite <- Hq.
    replace (t / s * (e * t)) with (e * (t * t) / s) by (field; lra).
    rewrite Ht; field; lra.
Qed.

(** [1 - u^2] for [u = e t / sqrt(1 + t^2)]. *)
Lemma one_minus_ratio_sq (t : R) :
  let u := e * t / sqrt (1 + t ^ 2) in
  (1 - u) * (1 + u) = (1 + (1 - e ^ 2) * t ^ 2) / (1 + t ^ 2).
Proof.
  intros u; unfold u.
  pose proof (sqrt_1_sq_pos t) as Hs.
  pose proof (sqrt_1_sq_sq t) as Hq.
  set (s := sqrt (1 + t ^ 2)) in *.
  rewrite <- Hq.
  replace (1 + (1 - e ^ 2) * t ^ 2) with (s * s - e ^ 2 * t ^ 2) by nra.
  field; lra.
Qed.

Lemma D_artanh (t : R) :
  derivable_pt_lim (fun t => artanh (e * t / sqrt (1 + t ^ 2))) t
    (e / (sqrt (1 + t ^ 2) * (1 + (1 - e ^ 2) * t ^ 2))).
Proof.
  pose proof (sqrt_1_sq_pos t) as Hs.
  pose proof (sqrt_1_sq_sq t) as Hq.
  pose proof (scaled_ratio_bound e t He) as Hu.
  pose proof (one_minus_ratio_sq t) as Hsq; cbv zeta in Hsq.
  pose proof (D_ratio t) as Du.
  unfold artanh.
  set (u := fun t => e * t / sqrt (1 + t ^ 2)) in *.
  set (u' := e / (sqrt (1 + t ^ 2) * (1 + t ^ 2))) in *.
  change (e * t / sqrt (1 + t ^ 2)) with (u t) in *.
  eapply D_value.
  - apply (D_mult (fun _ => / 2) (fun t => ln ((1 + u t) / (1 - u t)))).
    + apply D_const.
    + apply (D_ln (fun t => (1 + u t) / (1 - u t))).
      * apply (D_div (fun t => 1 + u t) (fun t => 1 - u t)).
        -- apply (D_plus (fun _ => 1) u); [apply D_const | exact Du].
        -- apply (D_minus (fun _ => 1) u); [apply D_const | exact Du].
        -- lra.
      * apply Rdiv_lt_0_compat; lra.
  - cbv beta; unfold Rsqr.
    assert (Hden : 0 < 1 + (1 - e ^ 2) * t ^ 2).
    { assert (0 <= (1 - e ^ 2) * t ^ 2)
        by (apply Rmult_le_pos; [nra | apply pow2_ge_0]). lra. }
    assert (Ht2 : 0 < 1 + t ^ 2) by (pose proof (pow2_ge_0 t); lra).
    assert (E : (1 - u t) * (1 + u t) * (1 + t ^ 2)
                = 1 + (1 - e ^ 2) * t ^ 2).
    { rewrite Hsq; field; lra. }
    unfold u'.
    set (s := sqrt (1 + t ^ 2)) in *.
    rewrite <- E.
    field; repeat split; lra.
Qed.
End Newton.

Lemma D_comp (g h : R -> R) (x lg lh : R) :
  derivable_pt_lim g x lg -> derivable_pt_lim h (g x) lh ->
  derivable_pt_lim (fun t => h (g t)) x (lh * lg).
Proof.
  intros Hg Hh; exact (derivable_pt_lim_comp g h x lg lh Hg Hh).
Qed.

Section NewtonDerivative.
Variables (e t1 : R).
Hypothesis He : 0 < e < 1.

Lemma D_sigma (t : R) :
  derivable_pt_lim (sigma_ref e) t
    (sqrt (1 + sigma_ref e t ^ 2)
     * (e * (e / (sqrt (1 + t ^ 2) * (1 + (1 - e ^ 2) * t ^ 2))))).
Proof.
  unfold sigma_ref at 1.
  eapply D_value.
  - apply (D_sinh (fun t => e * artanh (e * t / sqrt (1 + t ^ 2)))).
    apply (D_mult (fun _ => e)
             (fun t => artanh (e * t / sqrt (1 + t ^ 2)))).
    + apply D_const.
    + apply D_artanh; exact He.
  - cbv beta; rewrite cosh_sinh; fold (sigma_ref e t); ring.
Qed.

Lemma D_newton (t : R) :
  derivable_pt_lim (newton_f e t1) t (newton_df e t).
Proof.
  pose proof (D_sigma t) as DS.
  pose proof (D_root t) as Dr.
  pose proof (sqrt_1_sq_pos t) as Hr.
  pose proof (sqrt_1_sq_sq t) as Hrq.
  pose proof (sqrt_1_sq_pos (sigma_ref e t)) as HQ.
  assert (Hden : 0 < 1 + (1 - e ^ 2) * t ^ 2).
  { assert (0 <= (1 - e ^ 2) * t ^ 2)
      by (apply Rmult_le_pos; [nra | apply pow2_ge_0]). lra. }
  unfold newton_f, newton_df.
  set (S := sigma_ref e) in *.
  set (S' := sqrt (1 + S t ^ 2) * _) in DS.
  eapply D_value.
  - apply (D_minus (fun t => t * sqrt (1 + S t ^ 2)
                            - S t * sqrt (1 + t ^ 2)) (fun _ => t1)).
    + apply (D_minus (fun t => t * sqrt (1 + S t ^ 2))
               (fun t => S t * sqrt (1 + t ^ 2))).
      * apply (D_mult (fun t => t) (fun t => sqrt (1 + S t ^ 2)));
          [apply D_id |].
        apply (D_sqrt (fun t => 1 + S t ^ 2)).
        -- apply (D_comp S (fun x => 1 + x ^ 2)); [exact DS | apply D_sq].
        -- pose proof (pow2_ge_0 (S t)); lra.
      * apply (D_mult S (fun t => sqrt (1 + t ^ 2))); [exact DS | exact Dr].
    + apply D_const.
  - cbv beta; unfold S'.
    set (Q := sqrt (1 + S t ^ 2)) in *.
    set (r := sqrt (1 + t ^ 2)) in *.
    assert (Ht : t ^ 2 = r * r - 1) by lra.
    rewrite Ht in *.
    field; repeat split; lra.
Qed.
End NewtonDerivative.

(** ** Size of the series coefficients and of the hyperbolic factors *)

(** An absolute bound as a two-sided bound. *)
Lemma abs_bound (x B : R) : Rabs x <= B -> - B <= x <= B.
Proof.
  intros H.
  pose proof (Rle_abs x) as H1.
  pose proof (Rle_abs (- x)) as H2.
  rewrite Rabs_Ropp in H2; lra.
Qed.

(** One step of a Horner scheme in a small [n]: the value of [n x + c] is
    bounded from a bound on [x]. *)
Lemma horner_plus (B n x c B' : R) :
  0 <= n <= 0.002 -> 0 <= c -> 0.002 * B + c <= B' -> Rabs x <= B ->
  Rabs (n * x + c) <= B'.
Proof.
  intros Hn Hc HB Hx.
  apply abs_bound in Hx.
  assert (H1 : n * x <= n * B) by (apply Rmult_le_compat_l; lra).
  assert (H2 : n * - B <= n * x) by (apply Rmult_le_compat_l; lra).
  assert (H3 : n * B <= 0.002 * B) by (apply Rmult_le_compat_r; lra).
  apply Rabs_le; lra.
Qed.

Lemma horner_minus (B n x c B' : R) :
  0 <= n <= 0.002 -> 0 <= c -> 0.002 * B + c <= B' -> Rabs x <= B ->
  Rabs (n * x - c) <= B'.
Proof.
  intros Hn Hc HB Hx.
  apply abs_bound in Hx.
  assert (H1 : n * x <= n * B) by (apply Rmult_le_compat_l; lra).
  assert (H2 : n * - B <= n * x) by (apply Rmult_le_compat_l; lra).
  assert (H3 : n * B <= 0.002 * B) by (apply Rmult_le_compat_r; lra).
  apply Rabs_le; lra.
Qed.

Lemma horner_plus_r (B n x c B' : R) :
  0 <= n <= 0.002 -> 0 <= c -> 0.002 * B + c <= B' -> Rabs x <= B ->
  Rabs (x * n + c) <= B'.
Proof.
  intros; rewrite (Rmult_comm x n); apply (horner_plus B); assumption.
Qed.

Lemma pow_small (n : R) (k : nat) :
  0 <= n <= 0.002 -> 0 <= n ^ S k <= 0.002.
Proof.
  intros Hn.
  assert (H : 0 <= n ^ k <= 1).
  { split; [apply pow_le; lra |].
    rewrite <- (pow1 k); apply pow_incr; lra. }
  simpl; nra.
Qed.

(** The outer factor [n^k / D] of a coefficient. *)
Lemma horner_top (n x D : R) (k : nat) :
  0 <= n <= 0.002 -> 0 < D -> Rabs x <= D ->
  Rabs (n ^ S k * x / D) <= 0.002.
Proof.
  intros Hn HD Hx.
  pose proof (pow_small n k Hn) as Hk.
  apply abs_bound in Hx.
  set (m := n ^ S k) in *.
  assert (H1 : m * x <= m * D) by (apply Rmult_le_compat_l; lra).
  assert (H2 : m * - D <= m * x) by (apply Rmult_le_compat_l; lra).
  assert (H3 : m * D <= 0.002 * D) by (apply Rmult_le_compat_r; lra).
  apply Rabs_le; split.
  - apply Rmult_le_reg_r with D; [lra |].
    unfold Rdiv; rewrite Rmult_assoc, Rinv_l by lra; lra.
  - apply Rmult_le_reg_r with D; [lra |].
    unfold Rdiv; rewrite Rmult_assoc, Rinv_l by lra; lra.
Qed.

(** Bound a Horner form from the inside out, every inner value by 1e10. *)
Ltac horner Hn :=
  repeat first
    [ solve [apply Rabs_le; lra]
    | apply (horner_plus 1e10 _ _ _ _ Hn); [lra | lra |]
    | apply (horner_minus 1e10 _ _ _ _ Hn); [lra | lra |]
    | apply (horner_plus_r 1e10 _ _ _ _ Hn); [lra | lra |] ].

(** For a third flattening up to 0.002 every beta coefficient is at most
    0.002 in magnitude. *)
Lemma beta_small (n : R) :
  0 <= n <= 0.002 ->
  Rabs (Transform.b2_of n) <= 0.002 /\ Rabs (Transform.b4_of n) <= 0.002 /\
  Rabs (Transform.b6_of n) <= 0.002 /\ Rabs (Transform.b8_of n) <= 0.002 /\
  Rabs (Transform.b10_of n) <= 0.002 /\ Rabs (Transform.b12_of n) <= 0.002 /\
  Rabs (Transform.b14_of n) <= 0.002 /\ Rabs (Transform.b16_of n) <= 0.002.
Proof.
  intros Hn.
  unfold Transform.b2_of, Transform.b4_of, Transform.b6_of, Transform.b8_of,
    Transform.b10_of, Transform.b12_of, Transform.b14_of, Transform.b16_of.
  repeat split.
  - rewrite <- (pow_1 n) at 1. apply horner_top; [exact Hn | lra |]. horner Hn.
  - apply horner_top; [exact Hn | lra |]. horner Hn.
  - apply horner_top; [exact Hn | lra |]. horner Hn.
  - apply horner_top; [exact Hn | lra |]. horner Hn.
  - apply horner_top; [exact Hn | lra |]. horner Hn.
  - apply horner_top; [exact Hn | lra |]. horner Hn.
  - apply horner_top; [exact Hn | lra |]. horner Hn.
  - replace (-191773887257 * n ^ 8 / 3719607091200)
      with (n ^ 8 * -191773887257 / 3719607091200) by (unfold Rdiv; ring).
    apply horner_top; [exact Hn | lra |]. horner Hn.
Qed.

(** The beta coefficients a successful import leaves in the globals. *)
Lemma load_beta (proj : Projection) (c : Transform.Constants) :
  Transform.load proj = Ok c ->
  forall k, beta_term c k
            = match k with
              | 1%nat => Transform.b2_of (Transform.n c)
              | 2%nat => Transform.b4_of (Transform.n c)
              | 3%nat => Transform.b6_of (Transform.n c)
              | 4%nat => Transform.b8_of (Transform.n c)
              | 5%nat => Transform.b10_of (Transform.n c)
              | 6%nat => Transform.b12_of (Transform.n c)
              | 7%nat => Transform.b14_of (Transform.n c)
              | 8%nat => Transform.b16_of (Transform.n c)
              | _ => 0
              end.
Proof.
  unfold Transform.load, Transform.A_of, Py.div, Py.sqrt.
  repeat match goal with
         | |- context [if ?d then _ else _] => destruct d; cbn [bind]
         end;
    try discriminate.
  intros H; injection H as <-; intros k.
  do 9 (destruct k as [| k]; [reflexivity |]); reflexivity.
Qed.

Lemma load_beta_small (proj : Projection) (c : Transform.Constants) :
  Transform.load proj = Ok c -> 0 <= Transform.n c <= 0.002 ->
  forall k, Rabs (beta_term c k) <= 0.002.
Proof.
  intros Hl Hn k.
  rewrite (load_beta proj c Hl).
  destruct (beta_small (Transform.n c) Hn)
    as (H2 & H4 & H6 & H8 & H10 & H12 & H14 & H16).
  do 9 (destruct k as [| k]; [first [assumption | rewrite Rabs_R0; lra] |]).
  rewrite Rabs_R0; lra.
Qed.

(** GRS80: the third flattening is about 0.00168 and the rectifying radius
    about 6367 km. *)
Lemma grs80_third_flattening (c : Transform.Constants) :
  Transform.load grs80 = Ok c ->
  0 <= Transform.n c <= 0.002 /\ 6300000 <= Transform.A c.
Proof.
  intros Hl.
  destruct (load_fields grs80 c Hl) as (Ef & _ & _ & _ & _ & En & EA).
  cbn [proj0 proj1 grs80] in Ef, EA.
  assert (Hf : 0.003 <= Transform.f c <= 0.004).
  { assert (E : Transform.f c * 298.257222101 = 1) by (rewrite Ef; field; lra).
    lra. }
  assert (Hn : 0 <= Transform.n c <= 0.002).
  { assert (E : Transform.n c * (2 - Transform.f c) = Transform.f c)
      by (rewrite En; field; lra).
    nra. }
  split; [exact Hn |].
  rewrite EA.
  set (m := Transform.n c) in *.
  assert (Hq : 6365000 <= 6378137 / (1 + m)).
  { apply Rmult_le_reg_r with (1 + m); [lra |].
    unfold Rdiv; rewrite Rmult_assoc, Rinv_l by lra; lra. }
  assert (H2 : 0 <= m ^ 2) by apply pow2_ge_0.
  assert (Hs : 1 <= (m ^ 2 * (m ^ 2 * (m ^ 2 * (25 * m ^ 2 + 64) + 256)
                       + 4096) + 16384) / 16384).
  { set (s := m ^ 2) in *.
    assert (0 <= s * (25 * s + 64)) by nra.
    assert (0 <= s * (s * (25 * s + 64) + 256)) by nra.
    assert (0 <= s * (s * (s * (25 * s + 64) + 256) + 4096)) by nra.
    lra. }
  nra.
Qed.

(** Hyperbolic functions on the unit interval. *)
Lemma exp_unit (x : R) : Rabs x <= 1 -> 0 < exp x <= 3.
Proof.
  intros H; apply abs_bound in H.
  split; [apply exp_pos |].
  apply Rle_trans with (exp 1); [| apply exp_le_3].
  destruct (Req_dec x 1) as [-> | Hne]; [lra |].
  left; apply exp_increasing; lra.
Qed.

Lemma hyperbolic_unit (x : R) :
  Rabs x <= 1 -> Rabs (cosh x) <= 3 /\ Rabs (sinh x) <= 3.
Proof.
  intros H.
  assert (H' : Rabs (- x) <= 1) by (rewrite Rabs_Ropp; exact H).
  pose proof (exp_unit x H) as H1.
  pose proof (exp_unit (- x) H') as H2.
  unfold cosh, sinh; split; apply Rabs_le; lra.
Qed.

Lemma term_small (b s h : R) :
  Rabs b <= 0.002 -> Rabs s <= 1 -> Rabs h <= 3 -> Rabs (b * s * h) <= 0.006.
Proof.
  intros Hb Hs Hh.
  rewrite !Rabs_mult.
  pose proof (Rabs_pos b); pose proof (Rabs_pos s); pose proof (Rabs_pos h).
  assert (Rabs b * Rabs s <= 0.002) by nra.
  assert (0 <= Rabs b * Rabs s) by nra.
  nra.
Qed.

Lemma sin_unit (x : R) : Rabs (sin x) <= 1.
Proof.
  apply Rabs_le; destruct (SIN_bound x); lra.
Qed.

Lemma cos_unit (x : R) : Rabs (cos x) <= 1.
Proof.
  apply Rabs_le; destruct (COS_bound x); lra.
Qed.

(** Near the central meridian the beta series moves the grid ratios by less
    than 0.048. *)
Lemma gs_close (c : Transform.Constants) (xi eta : R) :
  (forall k, Rabs (beta_term c k) <= 0.002) -> Rabs eta <= / 16 ->
  Rabs (gs_xi1 c xi eta - xi) <= 0.048
  /\ Rabs (gs_eta1 c xi eta - eta) <= 0.048.
Proof.
  intros Hb He; apply abs_bound in He.
  assert (Hh : forall k : R, 0 <= k <= 16 ->
               Rabs (cosh (k * eta)) <= 3 /\ Rabs (sinh (k * eta)) <= 3).
  { intros k Hk; apply hyperbolic_unit, Rabs_le; nra. }
  rewrite gs_xi1_unfold, gs_eta1_unfold.
  pose proof (Hb 1%nat) as B2; pose proof (Hb 2%nat) as B4.
  pose proof (Hb 3%nat) as B6; pose proof (Hb 4%nat) as B8.
  pose proof (Hb 5%nat) as B10; pose proof (Hb 6%nat) as B12.
  pose proof (Hb 7%nat) as B14; pose proof (Hb 8%nat) as B16.
  cbn [beta_term] in *.
  destruct (Hh 2) as [C2 S2]; [lra |]. destruct (Hh 4) as [C4 S4]; [lra |].
  destruct (Hh 6) as [C6 S6]; [lra |]. destruct (Hh 8) as [C8 S8]; [lra |].
  destruct (Hh 10) as [C10 S10]; [lra |].
  destruct (Hh 12) as [C12 S12]; [lra |].
  destruct (Hh 14) as [C14 S14]; [lra |].
  destruct (Hh 16) as [C16 S16]; [lra |].
  split.
  - pose proof (abs_bound _ _ (term_small _ _ _ B2 (sin_unit (2 * xi)) C2)).
    pose proof (abs_bound _ _ (term_small _ _ _ B4 (sin_unit (4 * xi)) C4)).
    pose proof (abs_bound _ _ (term_small _ _ _ B6 (sin_unit (6 * xi)) C6)).
    pose proof (abs_bound _ _ (term_small _ _ _ B8 (sin_unit (8 * xi)) C8)).
    pose proof (abs_bound _ _ (term_small _ _ _ B10 (sin_unit (10 * xi)) C10)).
    pose proof (abs_bound _ _ (term_small _ _ _ B12 (sin_unit (12 * xi)) C12)).
    pose proof (abs_bound _ _ (term_small _ _ _ B14 (sin_unit (14 * xi)) C14)).
    pose proof (abs_bound _ _ (term_small _ _ _ B16 (sin_unit (16 * xi)) C16)).
    apply Rabs_le; lra.
  - pose proof (abs_bound _ _ (term_small _ _ _ B2 (cos_unit (2 * xi)) S2)).
    pose proof (abs_bound _ _ (term_small _ _ _ B4 (cos_unit (4 * xi)) S4)).
    pose proof (abs_bound _ _ (term_small _ _ _ B6 (cos_unit (6 * xi)) S6)).
    pose proof (abs_bound _ _ (term_small _ _ _ B8 (cos_unit (8 * xi)) S8)).
    pose proof (abs_bound _ _ (term_small _ _ _ B10 (cos_unit (10 * xi)) S10)).
    pose proof (abs_bound _ _ (term_small _ _ _ B12 (cos_unit (12 * xi)) S12)).
    pose proof (abs_bound _ _ (term_small _ _ _ B14 (cos_unit (14 * xi)) S14)).
    pose proof (abs_bound _ _ (term_small _ _ _ B16 (cos_unit (16 * xi)) S16)).
    apply Rabs_le; lra.
Qed.

(** Grid ratios of a point of the GRS80 grid within 5000 km of the equator
    and 390 km of the central meridian: the Gauss-Schreiber ratio [xi1] stays
    clear of a right angle and nothing overflows. *)
Lemma grs80_grid_ratios (c : Transform.Constants) (easting northing : R) :
  Transform.load grs80 = Ok c ->
  Rabs (easting - 500000) <= 390000 ->
  Rabs (northing - 10000000) <= 5000000 ->
  let xi := (northing - proj3 grs80) / proj4 grs80 / Transform.A c in
  let eta := (easting - proj2 grs80) / proj4 grs80 / Transform.A c in
  cos (gs_xi1 c xi eta) <> 0 /\ overflow_free c xi eta.
Proof.
  intros Hl He Hn xi eta.
  destruct (grs80_third_flattening c Hl) as [Hm HA].
  pose proof (load_beta_small grs80 c Hl Hm) as Hb.
  apply abs_bound in He; apply abs_bound in Hn.
  assert (Hxi : - 0.8 <= xi <= 0.8).
  { assert (E : xi * Transform.A c = (northing - 10000000) / 0.9996).
    { unfold xi; cbn [proj3 proj4 grs80]; field; lra. }
    assert (- 5002001 <= (northing - 10000000) / 0.9996 <= 5002001).
    { split.
      - apply Rmult_le_reg_r with 0.9996; [lra |].
        unfold Rdiv; rewrite Rmult_assoc, Rinv_l by lra; lra.
      - apply Rmult_le_reg_r with 0.9996; [lra |].
        unfold Rdiv; rewrite Rmult_assoc, Rinv_l by lra; lra. }
    nra. }
  assert (Heta : - 0.0625 <= eta <= 0.0625).
  { assert (E : eta * Transform.A c = (easting - 500000) / 0.9996).
    { unfold eta; cbn [proj2 proj4 grs80]; field; lra. }
    assert (- 390157 <= (easting - 500000) / 0.9996 <= 390157).
    { split.
      - apply Rmult_le_reg_r with 0.9996; [lra |].
        unfold Rdiv; rewrite Rmult_assoc, Rinv_l by lra; lra.
      - apply Rmult_le_reg_r with 0.9996; [lra |].
        unfold Rdiv; rewrite Rmult_assoc, Rinv_l by lra; lra. }
    nra. }
  assert (He16 : Rabs eta <= / 16) by (apply Rabs_le; lra).
  destruct (gs_close c xi eta Hb He16) as [Cx Ce].
  apply abs_bound in Cx; apply abs_bound in Ce.
  pose proof PI2_3_2 as Hpi.
  split.
  - apply Rgt_not_eq, cos_gt_0; lra.
  - repeat split; apply Rabs_le; lra.
Qed.

(** ** Latitude recovery in grid2geo *)



(** * Further properties of the conversions *)

(** ** Zone bands *)

Lemma int_eq_positive (q : R) (k : Z) :
  (1 <= k)%Z -> Py.int q = k <-> IZR k <= q < IZR k + 1.
Proof.
  intros Hk.
  assert (Hk1 : 1 <= IZR k) by (apply IZR_le in Hk; exact Hk).
  split.
  - intros E.
    destruct (Rle_dec 0 q) as [Hq | Hq].
    + rewrite int_nonneg in E by assumption.
      rewrite <- E; apply Zfloor_bound.
    + rewrite int_neg in E by lra.
      pose proof (Zceil_bound q) as Hb; rewrite E in Hb; lra.
  - intros Hq.
    rewrite int_nonneg by lra.
    apply Zfloor_eq; exact Hq.
Qed.

Lemma int_eq_zero (q : R) : Py.int q = 0%Z <-> -1 < q < 1.
Proof.
  split.
  - intros E.
    pose proof (int_bound q) as Hb; rewrite E in Hb; simpl in Hb; lra.
  - intros Hq.
    destruct (Rle_dec 0 q) as [H | H].
    + rewrite int_nonneg by assumption.
      apply Zfloor_eq; simpl; lra.
    + rewrite int_neg by lra.
      apply Zceil_eq; simpl; lra.
Qed.

Lemma quotient_open_band (proj : Projection) (long lo hi : R) :
  0 < proj5 proj ->
  lo < zone_quotient proj long < hi
  <-> proj6 proj - 1.5 * proj5 proj + lo * proj5 proj < long
      < proj6 proj - 1.5 * proj5 proj + hi * proj5 proj.
Proof.
  intros Hw.
  assert (E : long = zone_quotient proj long * proj5 proj
                     + (proj6 proj - 1.5 * proj5 proj)).
  { unfold zone_quotient; field; lra. }
  set (q := zone_quotient proj long) in *.
  split; intros [H1 H2]; split; nra.
Qed.

(** X1.  Away from the zone edges, every zone numbered 1 or more is the band
    of one zone width centred on its central meridian: for a longitude
    clear of the edges, geo2grid returns zone [k] if and only if the
    longitude is within half a width of that zone's meridian. *)
Theorem geo2grid_zone_band (proj : Projection) (c : Transform.Constants)
    (lat long : R) (k : Z) :
  Transform.load proj = Ok c -> valid_config proj -> (1 <= k)%Z ->
  clear_of_edges proj long ->
  (exists e n, Transform.geo2grid proj c lat long = Ok (k, e, n))
  <-> Transform.geo2grid_centmeridian proj k - proj5 proj / 2 < long
      < Transform.geo2grid_centmeridian proj k + proj5 proj / 2.
Proof.
  intros Hl Hv Hk [Hclear _].
  destruct (geo2grid_ok proj c Hl Hv lat long) as (e & n & _ & Hg).
  assert (Hw : 0 < proj5 proj) by (destruct Hv as (_ & _ & _ & Hw); lra).
  pose proof (int_eq_positive (zone_quotient proj long) k Hk) as Hint.
  pose proof (quotient_open_band proj long (IZR k) (IZR k + 1) Hw) as Hband.
  unfold Transform.geo2grid_centmeridian.
  split.
  - intros (e' & n' & Hg').
    rewrite Hg in Hg'; injection Hg' as Hz _ _.
    apply Hint in Hz.
    pose proof (Hclear k) as Hk'.
    assert (Hq : IZR k < zone_quotient proj long < IZR k + 1).
    { rewrite Rabs_right in Hk' by lra; lra. }
    apply Hband in Hq; lra.
  - intros Hlong.
    assert (Hz : Py.int (zone_quotient proj long) = k).
    { apply Hint.
      assert (Hq : IZR k < zone_quotient proj long < IZR k + 1)
        by (apply Hband; lra).
      lra. }
    rewrite Hz in Hg; exists e, n; exact Hg.
Qed.

Lemma geo2grid_zone_band_witness :
  exists c e n,
    Transform.load grs80 = Ok c
    /\ Transform.geo2grid grs80 c (-35) 149 = Ok (55%Z, e, n).
Proof.
  destruct grs80_loads as [c Hc].
  assert (Hk : (1 <= 55)%Z) by lia.
  destruct (geo2grid_zone_band grs80 c (-35) 149 55 Hc grs80_valid Hk
              grs80_clear_149) as [_ Hband].
  destruct Hband as (e & n & Hg).
  { unfold Transform.geo2grid_centmeridian, grs80; simpl; lra. }
  exists c, e, n; split; [exact Hc | exact Hg].
Defined.

(** X2.  Zone 0 is twice as wide as the others: geo2grid returns zone 0
    exactly for the longitudes strictly between [origin - 2.5 zoneWidth] and
    [origin - 0.5 zoneWidth], because [int()] sends every quotient strictly
    between -1 and 1 to 0. *)
Theorem geo2grid_zone_zero_band (proj : Projection)
    (c : Transform.Constants) (lat long : R) :
  Transform.load proj = Ok c -> valid_config proj ->
  (exists e n, Transform.geo2grid proj c lat long = Ok (0%Z, e, n))
  <-> proj6 proj - 2.5 * proj5 proj < long < proj6 proj - 0.5 * proj5 proj.
Proof.
  intros Hl Hv.
  destruct (geo2grid_ok proj c Hl Hv lat long) as (e & n & _ & Hg).
  assert (Hw : 0 < proj5 proj) by (destruct Hv as (_ & _ & _ & Hw); lra).
  pose proof (int_eq_zero (zone_quotient proj long)) as Hint.
  pose proof (quotient_open_band proj long (-1) 1 Hw) as Hband.
  split.
  - intros (e' & n' & Hg').
    rewrite Hg in Hg'; injection Hg' as Hz _ _.
    apply Hint, Hband in Hz; lra.
  - intros Hlong.
    assert (Hz : Py.int (zone_quotient proj long) = 0%Z).
    { apply Hint, Hband; lra. }
    rewrite Hz in Hg; exists e, n; exact Hg.
Qed.

Lemma geo2grid_zone_zero_band_witness :
  exists c e n,
    Transform.load grs80 = Ok c
    /\ Transform.geo2grid grs80 c 0 (-191) = Ok (0%Z, e, n).
Proof.
  destruct grs80_loads as [c Hc].
  destruct (geo2grid_zone_zero_band grs80 c 0 (-191) Hc grs80_valid)
    as [_ Hband].
  destruct Hband as (e & n & Hg).
  { unfold grs80; simpl; lra. }
  exists c, e, n; split; [exact Hc | exact Hg].
Defined.

(** ** The forward projection in closed form *)

Lemma tm_xi_unfold (c : Transform.Constants) (xi1 eta1 : R) :
  tm_xi c xi1 eta1
  = xi1 + Transform.a2 c * sin (2 * xi1) * cosh (2 * eta1)
    + Transform.a4 c * sin (4 * xi1) * cosh (4 * eta1)
    + Transform.a6 c * sin (6 * xi1) * cosh (6 * eta1)
    + Transform.a8 c * sin (8 * xi1) * cosh (8 * eta1)
    + Transform.a10 c * sin (10 * xi1) * cosh (10 * eta1)
    + Transform.a12 c * sin (12 * xi1) * cosh (12 * eta1)
    + Transform.a14 c * sin (14 * xi1) * cosh (14 * eta1)
    + Transform.a16 c * sin (16 * xi1) * cosh (16 * eta1).
Proof.
  unfold tm_xi, series, alpha_term.
  rewrite !gs_terms.
  cbn [Z.of_nat Pos.of_succ_nat Pos.succ Z.mul Pos.mul Pos.add].
  ring.
Qed.

Lemma tm_eta_unfold (c : Transform.Constants) (xi1 eta1 : R) :
  tm_eta c xi1 eta1
  = eta1 + Transform.a2 c * cos (2 * xi1) * sinh (2 * eta1)
    + Transform.a4 c * cos (4 * xi1) * sinh (4 * eta1)
    + Transform.a6 c * cos (6 * xi1) * sinh (6 * eta1)
    + Transform.a8 c * cos (8 * xi1) * sinh (8 * eta1)
    + Transform.a10 c * cos (10 * xi1) * sinh (10 * eta1)
    + Transform.a12 c * cos (12 * xi1) * sinh (12 * eta1)
    + Transform.a14 c * cos (14 * xi1) * sinh (14 * eta1)
    + Transform.a16 c * cos (16 * xi1) * sinh (16 * eta1).
Proof.
  unfold tm_eta, series, alpha_term.
  rewrite !gs_terms.
  cbn [Z.of_nat Pos.of_succ_nat Pos.succ Z.mul Pos.mul Pos.add].
  ring.
Qed.

Lemma half_literal : 0.5 = / 2.
Proof. lra. Qed.

Section Forward.

Import Transform.

Variables (proj : Projection) (c : Constants).
Hypothesis Hload : load proj = Ok c.
Hypothesis Hvalid : valid_config proj.

(** Easting and northing as the alpha series of the Gauss-Schreiber ratios
    of the conformal latitude. *)
Lemma geo2grid_tm_value (lat long cm : R) :
  -90 < long - cm < 90 ->
  let tau := conformal_tan (ecc1 c) (tan (Py.radians lat)) in
  let dl := Py.radians (long - cm) in
  let xi1 := gs_forward_xi tau dl in
  let eta1 := gs_forward_eta tau dl in
  geo2grid_tm proj c lat long cm
  = Ok (Py.round (proj4 proj * (A c * tm_eta c xi1 eta1) + proj2 proj) 5,
        Py.round (proj4 proj * (A c * tm_xi c xi1 eta1) + proj3 proj) 5).
Proof.
  intros Hd tau dl xi1 eta1.
  destruct Hvalid as (_ & Hi & _ & _).
  destruct (load_ellipsoid proj c Hload Hi) as (_ & He & _).
  pose proof (cos_radians_pos _ Hd) as Hcos; fold dl in Hcos.
  rewrite tm_eta_unfold, tm_xi_unfold.
  unfold xi1, eta1, gs_forward_xi, gs_forward_eta, arsinh.
  unfold tau, conformal_tan, sigma_ref, artanh.
  unfold geo2grid_tm; fold dl.
  set (T := tan (Py.radians lat)).
  pose proof (sqrt_1_sq_pos T) as HsT.
  pose proof (scaled_ratio_bound (ecc1 c) T He) as Hsig.
  rewrite sqrt_ok by (pose proof (pow2_ge_0 T); lra); cbn [bind].
  rewrite div_ok by lra; cbn [bind].
  set (sigx := ecc1 c * T / sqrt (1 + T ^ 2)) in *.
  rewrite div_ok by lra; cbn [bind].
  rewrite log_ok by (apply Rdiv_lt_0_compat; lra); cbn [bind].
  rewrite half_literal.
  set (sig := sinh _).
  rewrite sqrt_ok by (pose proof (pow2_ge_0 sig); lra); cbn [bind].
  rewrite tan_atan.
  set (tau' := T * sqrt (1 + sig ^ 2) - sig * sqrt (1 + T ^ 2)).
  rewrite div_ok by lra; cbn [bind].
  assert (Hsum : 0 < tau' ^ 2 + cos dl ^ 2).
  { pose proof (pow2_ge_0 tau'); assert (0 < cos dl ^ 2) by nra; lra. }
  rewrite sqrt_ok by lra; cbn [bind].
  rewrite div_ok by (apply Rgt_not_eq, sqrt_lt_R0; lra); cbn [bind].
  set (eta1x := sin dl / _).
  rewrite sqrt_ok by (pose proof (pow2_ge_0 eta1x); lra); cbn [bind].
  rewrite log_ok by apply arsinh_arg_pos; cbn [bind].
  reflexivity.
Qed.

End Forward.

(** ** Symmetries and special lines of the forward projection *)

Lemma tan_ratio_sin (phi : R) :
  0 < cos phi -> tan phi / sqrt (1 + tan phi ^ 2) = sin phi.
Proof.
  intros Hc.
  assert (Hinv : 0 < / cos phi) by now apply Rinv_0_lt_compat.
  assert (E : 1 + tan phi ^ 2 = / cos phi * / cos phi).
  { pose proof (sin2_cos2 phi) as H; unfold Rsqr in H.
    unfold tan.
    replace (/ cos phi * / cos phi)
      with ((sin phi * sin phi + cos phi * cos phi)
            * (/ cos phi * / cos phi)) by (rewrite H; ring).
    field; lra. }
  rewrite E, sqrt_square by lra.
  unfold tan; field; lra.
Qed.

Lemma sinh_opp (x : R) : sinh (- x) = - sinh x.
Proof.
  unfold sinh; rewrite Ropp_involutive; field.
Qed.

Lemma artanh_opp (x : R) : -1 < x < 1 -> artanh (- x) = - artanh x.
Proof.
  intros Hx; unfold artanh.
  replace ((1 + - x) / (1 - - x)) with (/ ((1 + x) / (1 - x)))
    by (field; lra).
  rewrite ln_Rinv by (apply Rdiv_lt_0_compat; lra).
  ring.
Qed.

Lemma artanh_0 : artanh 0 = 0.
Proof.
  unfold artanh.
  replace ((1 + 0) / (1 - 0)) with 1 by field.
  rewrite ln_1; ring.
Qed.

Lemma arsinh_0 : arsinh 0 = 0.
Proof.
  unfold arsinh.
  replace (0 + sqrt (1 + 0 ^ 2)) with 1; [apply ln_1 |].
  replace (1 + 0 ^ 2) with 1 by ring.
  rewrite sqrt_1; ring.
Qed.

Lemma sigma_ref_0 (e : R) : sigma_ref e 0 = 0.
Proof.
  unfold sigma_ref.
  replace (e * 0 / sqrt (1 + 0 ^ 2)) with 0 by (unfold Rdiv; ring).
  rewrite artanh_0, Rmult_0_r; apply sinh_0.
Qed.

Lemma sigma_ref_opp (e t : R) :
  0 < e < 1 -> sigma_ref e (- t) = - sigma_ref e t.
Proof.
  intros He; unfold sigma_ref.
  replace (1 + (- t) ^ 2) with (1 + t ^ 2) by ring.
  replace (e * - t / sqrt (1 + t ^ 2)) with (- (e * t / sqrt (1 + t ^ 2)))
    by (unfold Rdiv; ring).
  rewrite artanh_opp by (apply scaled_ratio_bound; exact He).
  replace (e * - artanh (e * t / sqrt (1 + t ^ 2)))
    with (- (e * artanh (e * t / sqrt (1 + t ^ 2)))) by ring.
  apply sinh_opp.
Qed.

Lemma conformal_tan_0 (e : R) : conformal_tan e 0 = 0.
Proof.
  unfold conformal_tan; rewrite sigma_ref_0; ring.
Qed.

(** The conformal latitude is an odd function of the latitude. *)
Lemma conformal_tan_opp (e t : R) :
  0 < e < 1 -> conformal_tan e (- t) = - conformal_tan e t.
Proof.
  intros He; unfold conformal_tan.
  rewrite sigma_ref_opp by exact He.
  replace (1 + (- sigma_ref e t) ^ 2) with (1 + sigma_ref e t ^ 2) by ring.
  replace (1 + (- t) ^ 2) with (1 + t ^ 2) by ring.
  ring.
Qed.

Lemma gs_forward_eta_meridian (tau : R) : gs_forward_eta tau 0 = 0.
Proof.
  unfold gs_forward_eta.
  rewrite sin_0.
  replace (0 / sqrt (tau ^ 2 + cos 0 ^ 2)) with 0 by (unfold Rdiv; ring).
  apply arsinh_0.
Qed.

Lemma gs_forward_xi_equator (dl : R) : gs_forward_xi 0 dl = 0.
Proof.
  unfold gs_forward_xi.
  replace (0 / cos dl) with 0 by (unfold Rdiv; ring).
  apply atan_0.
Qed.

Lemma gs_forward_opp (tau dl : R) :
  gs_forward_xi (- tau) dl = - gs_forward_xi tau dl
  /\ gs_forward_eta (- tau) dl = gs_forward_eta tau dl.
Proof.
  unfold gs_forward_xi, gs_forward_eta; split.
  - replace (- tau / cos dl) with (- (tau / cos dl)) by (unfold Rdiv; ring).
    apply atan_opp.
  - replace ((- tau) ^ 2) with (tau ^ 2) by ring; reflexivity.
Qed.

Lemma tm_eta_meridian (c : Transform.Constants) (xi1 : R) :
  tm_eta c xi1 0 = 0.
Proof.
  rewrite tm_eta_unfold, !Rmult_0_r, sinh_0; ring.
Qed.

Lemma tm_xi_equator (c : Transform.Constants) (eta1 : R) :
  tm_xi c 0 eta1 = 0.
Proof.
  rewrite tm_xi_unfold, !Rmult_0_r, sin_0; ring.
Qed.

Lemma tm_eta_even (c : Transform.Constants) (xi1 eta1 : R) :
  tm_eta c (- xi1) eta1 = tm_eta c xi1 eta1.
Proof.
  rewrite !tm_eta_unfold.
  replace (2 * - xi1) with (- (2 * xi1)) by ring.
  replace (4 * - xi1) with (- (4 * xi1)) by ring.
  replace (6 * - xi1) with (- (6 * xi1)) by ring.
  replace (8 * - xi1) with (- (8 * xi1)) by ring.
  replace (10 * - xi1) with (- (10 * xi1)) by ring.
  replace (12 * - xi1) with (- (12 * xi1)) by ring.
  replace (14 * - xi1) with (- (14 * xi1)) by ring.
  replace (16 * - xi1) with (- (16 * xi1)) by ring.
  rewrite !cos_neg; reflexivity.
Qed.

Lemma radians_opp (d : R) : Py.radians (- d) = - Py.radians d.
Proof.
  unfold Py.radians; ring.
Qed.

Section ForwardLines.

Import Transform.

Variables (proj : Projection) (c : Constants).
Hypothesis Hload : load proj = Ok c.
Hypothesis Hvalid : valid_config proj.

(** geo2grid in closed form, about the meridian of the zone it computes. *)
Lemma geo2grid_value (lat long : R) :
  let zone := Py.int (zone_quotient proj long) in
  let tau := conformal_tan (ecc1 c) (tan (Py.radians lat)) in
  let dl := Py.radians (long - geo2grid_centmeridian proj zone) in
  let xi1 := gs_forward_xi tau dl in
  let eta1 := gs_forward_eta tau dl in
  geo2grid proj c lat long
  = Ok (zone,
        Py.round (proj4 proj * (A c * tm_eta c xi1 eta1) + proj2 proj) 5,
        Py.round (proj4 proj * (A c * tm_xi c xi1 eta1) + proj3 proj) 5).
Proof.
  intros zone tau dl xi1 eta1.
  unfold geo2grid.
  rewrite (geo2grid_zone_ok proj Hvalid); cbn [bind].
  rewrite (geo2grid_tm_value proj c Hload Hvalid lat long _
             (centmeridian_near proj Hvalid long)).
  reflexivity.
Qed.

Lemma meridian_zone (k : Z) :
  (0 <= k)%Z ->
  Py.int (zone_quotient proj (geo2grid_centmeridian proj k)) = k.
Proof.
  intros Hk.
  destruct Hvalid as (_ & _ & _ & Hw).
  assert (Hk0 : 0 <= IZR k) by (apply IZR_le in Hk; exact Hk).
  assert (E : zone_quotient proj (geo2grid_centmeridian proj k)
              = IZR k + / 2).
  { unfold zone_quotient, geo2grid_centmeridian.
    apply (Rmult_eq_reg_r (proj5 proj)); [| lra].
    unfold Rdiv; rewrite Rmult_assoc, Rinv_l by lra.
    nra. }
  rewrite E, int_nonneg by lra.
  apply Zfloor_eq; lra.
Qed.

End ForwardLines.

(** ** Latitudes outside [-90, 90] *)

(** C3, amended.  geo2grid and llh2xyz make no latitude range check and
    have no invalid-latitude error.  For every latitude outside [-90, 90]
    (up to 10000 degrees in magnitude, where the doubles still resolve the
    angle, and other than the odd multiples of 90 degrees, where the tangent
    has a pole) they return, without raising, the value of the very formulas
    they use inside that range, evaluated at that latitude: geo2grid the
    zone with the rounded easting and northing of the alpha series at the
    conformal tangent of [tan(lat)], llh2xyz its closed form.  No default
    value is substituted. *)
Theorem latitude_unchecked (proj : Projection) (c : Transform.Constants)
    (lat long h : R) :
  Transform.load proj = Ok c -> valid_config proj ->
  lat < -90 \/ 90 < lat ->
  Rabs lat <= 1e4 ->
  cos (Py.radians lat) <> 0 ->
  let phi := Py.radians lat in
  let tau := conformal_tan (Transform.ecc1 c) (tan phi) in
  let zone := Py.int (zone_quotient proj long) in
  let cm := IZR zone * proj5 proj + (proj6 proj - proj5 proj) in
  let dl := Py.radians (long - cm) in
  let xi1 := atan (tau / cos dl) in
  let eta1 := arsinh (sin dl / sqrt (tau ^ 2 + cos dl ^ 2)) in
  let nu := prime_vertical c phi in
  Transform.geo2grid proj c lat long
  = Ok (zone,
        Py.round (proj4 proj * (Transform.A c * tm_eta c xi1 eta1)
                  + proj2 proj) 5,
        Py.round (proj4 proj * (Transform.A c * tm_xi c xi1 eta1)
                  + proj3 proj) 5)
  /\ Transform.llh2xyz proj c lat long h
     = Ok ((nu + h) * cos phi * cos (Py.radians long),
           (nu + h) * cos phi * sin (Py.radians long),
           (Transform.semi_min c ^ 2 / Transform.semi_maj c ^ 2 * nu + h)
           * sin phi).
Proof.
  intros Hl Hv _ _ _ phi tau zone cm dl xi1 eta1 nu.
  split.
  - rewrite (geo2grid_value proj c Hl Hv lat long); reflexivity.
  - destruct (load_fields proj c Hl) as (_ & Em & _).
    destruct Hv as (Ha & Hi & Hk & Hw).
    destruct (load_ellipsoid proj c Hl Hi) as (_ & _ & Hsq & _).
    unfold nu, prime_vertical; rewrite <- Hsq, Em.
    apply llh2xyz_value; [assumption | repeat split; tauto].
Qed.

Lemma latitude_unchecked_witness :
  exists c,
    Transform.load grs80 = Ok c
    /\ (exists e n, Transform.geo2grid grs80 c 100 0 = Ok (31%Z, e, n))
    /\ exists xyz, Transform.llh2xyz grs80 c 100 0 0 = Ok xyz.
Proof.
  destruct grs80_loads as [c Hc].
  assert (Hlat : 100 < -90 \/ 90 < 100) by (right; lra).
  assert (Hbig : Rabs 100 <= 1e4) by (rewrite Rabs_right by lra; lra).
  assert (Hcos : cos (Py.radians 100) <> 0).
  { pose proof PI_RGT_0 as Hpi.
    apply Rlt_not_eq, cos_lt_0; unfold Py.radians; lra. }
  destruct (latitude_unchecked grs80 c 100 0 0 Hc grs80_valid Hlat Hbig
              Hcos)
    as [Hg Hx].
  rewrite grs80_zone_0 in Hg.
  exists c; split; [exact Hc |].
  split; [do 2 eexists; exact Hg | eexists; exact Hx].
Defined.

(** ** The forward projection on its special lines *)

(** X3.  For a latitude strictly between -90 and 90 degrees geo2grid is the
    Krueger forward projection: with [sigma = sinh(e1 artanh(e1 sin lat))]
    and conformal tangent
    [tau = tan lat sqrt(1 + sigma^2) - sigma sqrt(1 + tan^2 lat)], the
    Gauss-Schreiber ratios are [xi1 = atan(tau / cos dl)] and
    [eta1 = arsinh(sin dl / sqrt(tau^2 + cos^2 dl))] for the longitude
    difference [dl] to the zone's central meridian, and the result is the
    zone with [round(k0 A eta + FE, 5)] and [round(k0 A xi + FN, 5)], [eta]
    and [xi] being the eight-term alpha series. *)
Theorem geo2grid_krueger (proj : Projection) (c : Transform.Constants)
    (lat long : R) :
  Transform.load proj = Ok c -> valid_config proj ->
  -90 < lat < 90 ->
  let e1 := Transform.ecc1 c in
  let phi := Py.radians lat in
  let sigma := sinh (e1 * artanh (e1 * sin phi)) in
  let tau := tan phi * sqrt (1 + sigma ^ 2)
             - sigma * sqrt (1 + tan phi ^ 2) in
  let zone := Py.int (zone_quotient proj long) in
  let cm := IZR zone * proj5 proj + (proj6 proj - proj5 proj) in
  let dl := Py.radians (long - cm) in
  let xi1 := atan (tau / cos dl) in
  let eta1 := arsinh (sin dl / sqrt (tau ^ 2 + cos dl ^ 2)) in
  Transform.geo2grid proj c lat long
  = Ok (zone,
        Py.round (proj4 proj * (Transform.A c * tm_eta c xi1 eta1)
                  + proj2 proj) 5,
        Py.round (proj4 proj * (Transform.A c * tm_xi c xi1 eta1)
                  + proj3 proj) 5).
Proof.
  intros Hl Hv Hlat e1 phi sigma tau zone cm dl xi1 eta1.
  rewrite (geo2grid_value proj c Hl Hv lat long).
  fold zone; unfold Transform.geo2grid_centmeridian; fold cm dl.
  assert (Htau : conformal_tan (Transform.ecc1 c) (tan (Py.radians lat))
                 = tau).
  { unfold conformal_tan, sigma_ref, tau, sigma; fold phi e1.
    replace (e1 * tan phi / sqrt (1 + tan phi ^ 2))
      with (e1 * (tan phi / sqrt (1 + tan phi ^ 2)))
      by (unfold Rdiv; ring).
    rewrite tan_ratio_sin by (apply cos_radians_pos; exact Hlat).
    reflexivity. }
  rewrite Htau; reflexivity.
Qed.

Lemma geo2grid_krueger_witness :
  exists c e n,
    Transform.load grs80 = Ok c
    /\ Transform.geo2grid grs80 c (-35) 149 = Ok (55%Z, e, n).
Proof.
  destruct grs80_loads as [c Hc].
  assert (Hlat : -90 < -35 < 90) by lra.
  pose proof (geo2grid_krueger grs80 c (-35) 149 Hc grs80_valid Hlat) as H.
  cbv zeta in H.
  assert (Hz : Py.int (zone_quotient grs80 149) = 55%Z).
  { rewrite grs80_quotient, int_nonneg by lra.
    apply Zfloor_eq; simpl; lra. }
  rewrite Hz in H.
  exists c; eexists; eexists; split; [exact Hc | exact H].
Defined.

(** X4.  On the central meridian of a zone numbered 0 or more, geo2grid
    returns that zone and, at every latitude, the false easting rounded to
    5 decimals as easting. *)
Theorem geo2grid_on_meridian (proj : Projection) (c : Transform.Constants)
    (lat : R) (k : Z) :
  Transform.load proj = Ok c -> valid_config proj -> (0 <= k)%Z ->
  exists n,
    Transform.geo2grid proj c lat (Transform.geo2grid_centmeridian proj k)
    = Ok (k, Py.round (proj2 proj) 5, n).
Proof.
  intros Hl Hv Hk.
  rewrite (geo2grid_value proj c Hl Hv).
  rewrite (meridian_zone proj Hv k Hk).
  replace (Transform.geo2grid_centmeridian proj k
           - Transform.geo2grid_centmeridian proj k) with 0 by ring.
  assert (E0 : Py.radians 0 = 0) by (apply radians_0; reflexivity).
  rewrite E0, gs_forward_eta_meridian, tm_eta_meridian.
  replace (proj4 proj * (Transform.A c * 0) + proj2 proj) with (proj2 proj)
    by ring.
  eexists; reflexivity.
Qed.

Lemma geo2grid_on_meridian_witness :
  exists c n,
    Transform.load grs80 = Ok c
    /\ Transform.geo2grid grs80 c 45
         (Transform.geo2grid_centmeridian grs80 31)
       = Ok (31%Z, Py.round 500000 5, n).
Proof.
  destruct grs80_loads as [c Hc].
  assert (Hk : (0 <= 31)%Z) by lia.
  destruct (geo2grid_on_meridian grs80 c 45 31 Hc grs80_valid Hk) as [n Hg].
  exists c, n; split; [exact Hc | exact Hg].
Defined.

(** X5.  On the equator geo2grid returns, at every longitude, the false
    northing rounded to 5 decimals as northing. *)
Theorem geo2grid_on_equator (proj : Projection) (c : Transform.Constants)
    (long : R) :
  Transform.load proj = Ok c -> valid_config proj ->
  exists e,
    Transform.geo2grid proj c 0 long
    = Ok (Py.int (zone_quotient proj long), e, Py.round (proj3 proj) 5).
Proof.
  intros Hl Hv.
  rewrite (geo2grid_value proj c Hl Hv).
  assert (E0 : Py.radians 0 = 0) by (apply radians_0; reflexivity).
  rewrite E0, tan_0, conformal_tan_0, gs_forward_xi_equator, tm_xi_equator.
  replace (proj4 proj * (Transform.A c * 0) + proj3 proj) with (proj3 proj)
    by ring.
  eexists; reflexivity.
Qed.

Lemma geo2grid_on_equator_witness :
  exists c e,
    Transform.load grs80 = Ok c
    /\ Transform.geo2grid grs80 c 0 0 = Ok (31%Z, e, Py.round 10000000 5).
Proof.
  destruct grs80_loads as [c Hc].
  destruct (geo2grid_on_equator grs80 c 0 Hc grs80_valid) as [e Hg].
  rewrite grs80_zone_0 in Hg.
  exists c, e; split; [exact Hc | exact Hg].
Defined.

(** X6.  Mirroring a point in the equator changes neither its zone nor its
    easting: geo2grid returns the same zone and the same easting for [lat]
    and for [-lat] at one longitude. *)
Theorem geo2grid_easting_mirror (proj : Projection)
    (c : Transform.Constants) (lat long : R) :
  Transform.load proj = Ok c -> valid_config proj ->
  exists zone e n n',
    Transform.geo2grid proj c lat long = Ok (zone, e, n)
    /\ Transform.geo2grid proj c (- lat) long = Ok (zone, e, n').
Proof.
  intros Hl Hv.
  assert (He : 0 < Transform.ecc1 c < 1).
  { destruct Hv as (_ & Hi & _ & _).
    now destruct (load_ellipsoid proj c Hl Hi) as (_ & He & _). }
  rewrite !(geo2grid_value proj c Hl Hv).
  rewrite radians_opp, tan_neg, conformal_tan_opp by exact He.
  set (tau := conformal_tan _ _).
  set (dl := Py.radians _).
  destruct (gs_forward_opp tau dl) as [Exi Eeta].
  rewrite Exi, Eeta, tm_eta_even.
  do 4 eexists; split; reflexivity.
Qed.

Lemma geo2grid_easting_mirror_witness :
  exists c zone e n n',
    Transform.load grs80 = Ok c
    /\ Transform.geo2grid grs80 c 35 149 = Ok (zone, e, n)
    /\ Transform.geo2grid grs80 c (- 35) 149 = Ok (zone, e, n').
Proof.
  destruct grs80_loads as [c Hc].
  destruct (geo2grid_easting_mirror grs80 c 35 149 Hc grs80_valid)
    as (zone & e & n & n' & H1 & H2).
  exists c, zone, e, n, n'; repeat split; assumption.
Defined.

(** ** Rounding *)

Lemma rint_integer (z : Z) : Py.rint (IZR z) = z.
Proof.
  unfold Py.rint; rewrite ZfloorZ.
  destruct (Rlt_dec (IZR z - IZR z) (1 / 2)) as [_ | H]; [reflexivity | lra].
Qed.

(** Rounding leaves exact integers alone. *)
Lemma round_integer (z : Z) (ndigits : nat) :
  Py.round (IZR z) ndigits = IZR z.
Proof.
  unfold Py.round.
  assert (Hp : 10 ^ ndigits <> 0) by (apply pow_nonzero; lra).
  rewrite pow_IZR, <- mult_IZR, rint_integer, mult_IZR, <- pow_IZR.
  field; exact Hp.
Qed.

(** ** Square roots of scaled sums *)

Lemma sqrt_scaled (c w : R) :
  0 < c -> sqrt ((c * w) ^ 2 + c ^ 2) = c * sqrt (1 + w ^ 2).
Proof.
  intros Hc.
  replace ((c * w) ^ 2 + c ^ 2) with (c * c * (1 + w ^ 2)) by ring.
  rewrite sqrt_mult_alt by nra.
  rewrite sqrt_square by lra.
  reflexivity.
Qed.

(** ** The equation the Newton iteration solves *)

Lemma newton_f_conformal (e t1 t : R) :
  newton_f e t1 t = conformal_tan e t - t1.
Proof.
  reflexivity.
Qed.

Lemma newton_f_derivable (e : R) : 0 < e < 1 -> derivable (newton_f e 0).
Proof.
  intros He t.
  exists (newton_df e t); apply D_newton; exact He.
Qed.

(** The conformal tangent grows strictly with the tangent of the latitude. *)
Lemma conformal_tan_increasing (e x y : R) :
  0 < e < 1 -> x < y -> conformal_tan e x < conformal_tan e y.
Proof.
  intros He Hxy.
  pose proof (derive_increasing_interv (x - 1) (y + 1) (newton_f e 0)
                (newton_f_derivable e He)) as Hinc.
  assert (Hlt : newton_f e 0 x < newton_f e 0 y).
  { apply Hinc; try lra.
    intros t _.
    rewrite (derive_pt_eq_0 _ _ (newton_df e t)).
    - apply newton_df_pos; exact He.
    - apply D_newton; exact He. }
  rewrite !newton_f_conformal in Hlt; lra.
Qed.

(** X8.  The equation grid2geo solves by Newton's method is well posed
    against geo2grid: when [t1] is the conformal tangent that geo2grid forms
    from [T = tan(lat)], the function [ftn] of grid2geo vanishes at [T] and
    nowhere else, and a Newton step taken at [T] stays at [T]. *)
Theorem newton_root_unique (proj : Projection) (c : Transform.Constants)
    (T t : R) :
  Transform.load proj = Ok c -> valid_config proj ->
  let e1 := Transform.ecc1 c in
  let t1 := conformal_tan e1 T in
  Transform.ftn c t1 T = Ok 0
  /\ (Transform.ftn c t1 t = Ok 0 <-> t = T)
  /\ newton_step e1 t1 T = T.
Proof.
  intros Hl Hv e1 t1.
  assert (He : 0 < e1 < 1).
  { destruct Hv as (_ & Hi & _ & _).
    now destruct (load_ellipsoid proj c Hl Hi) as (_ & He & _). }
  assert (Hroot : newton_f e1 t1 T = 0).
  { rewrite newton_f_conformal; unfold t1; ring. }
  rewrite !(ftn_ok proj c Hl Hv); fold e1.
  split; [rewrite Hroot; reflexivity |].
  split.
  - split.
    + intros H; injection H as H.
      rewrite newton_f_conformal in H; unfold t1 in H.
      destruct (Rtotal_order t T) as [Hlt | [Heq | Hgt]];
        [| exact Heq |].
      * pose proof (conformal_tan_increasing e1 t T He Hlt); lra.
      * pose proof (conformal_tan_increasing e1 T t He Hgt); lra.
    + intros ->; rewrite Hroot; reflexivity.
  - unfold newton_step; rewrite Hroot; unfold Rdiv; ring.
Qed.

Lemma newton_root_unique_witness :
  exists c,
    Transform.load grs80 = Ok c
    /\ Transform.ftn c (conformal_tan (Transform.ecc1 c) 1) 1 = Ok 0.
Proof.
  destruct grs80_loads as [c Hc].
  exists c; split; [exact Hc |].
  destruct (newton_root_unique grs80 c 1 1 Hc grs80_valid) as [H _].
  exact H.
Defined.

(** ** Special lines of the inverse projection *)

Lemma gs_eta1_meridian (c : Transform.Constants) (xi : R) :
  gs_eta1 c xi 0 = 0.
Proof.
  rewrite gs_eta1_unfold, !Rmult_0_r, sinh_0; ring.
Qed.

Lemma gs_xi1_equator (c : Transform.Constants) (eta : R) :
  gs_xi1 c 0 eta = 0.
Proof.
  rewrite gs_xi1_unfold, !Rmult_0_r, sin_0; ring.
Qed.

Lemma newton_step_0 (e : R) : newton_step e 0 0 = 0.
Proof.
  unfold newton_step.
  rewrite newton_f_conformal, conformal_tan_0.
  unfold Rdiv; ring.
Qed.

Lemma degrees_0 : Py.degrees 0 = 0.
Proof.
  unfold Py.degrees; ring.
Qed.

Lemma round_0 (ndigits : nat) : Py.round 0 ndigits = 0.
Proof.
  apply (round_integer 0).
Qed.

Section InverseLines.

Import Transform.

Variables (proj : Projection) (c : Constants).
Hypothesis Hload : load proj = Ok c.
Hypothesis Hvalid : valid_config proj.

(** A grid point whose northing is the false northing has latitude 0. *)
Lemma grid2geo_false_northing (zone : Z) (easting : R) :
  exists long,
    grid2geo proj c zone easting (proj3 proj) = Ok (0, long).
Proof.
  pose proof (grid2geo_value proj c Hload Hvalid zone easting (proj3 proj))
    as H; cbv zeta in H.
  replace ((proj3 proj - proj3 proj) / proj4 proj / A c) with 0 in H
    by (unfold Rdiv; ring).
  rewrite gs_xi1_equator in H.
  rewrite H by (rewrite cos_0; lra).
  rewrite sin_0.
  replace (0 / sqrt (sinh
             (gs_eta1 c 0 ((easting - proj2 proj) / proj4 proj / A c)) ^ 2
             + cos 0 ^ 2)) with 0 by (unfold Rdiv; ring).
  cbn [Nat.iter nat_rect].
  rewrite !newton_step_0, atan_0, degrees_0, round_0.
  eexists; reflexivity.
Qed.

(** A grid point whose easting is the false easting lies on the central
    meridian of its zone. *)
Lemma grid2geo_false_easting (zone : Z) (northing : R) :
  cos (gs_xi1 c ((northing - proj3 proj) / proj4 proj / A c) 0) <> 0 ->
  exists lat,
    grid2geo proj c zone (proj2 proj) northing
    = Ok (lat, Py.round (IZR zone * proj5 proj + proj6 proj - proj5 proj) 11).
Proof.
  intros Hcos.
  pose proof (grid2geo_value proj c Hload Hvalid zone (proj2 proj) northing)
    as H; cbv zeta in H.
  replace ((proj2 proj - proj2 proj) / proj4 proj / A c) with 0 in H
    by (unfold Rdiv; ring).
  rewrite H by exact Hcos.
  rewrite gs_eta1_meridian, sinh_0.
  replace (0 / cos (gs_xi1 c ((northing - proj3 proj) / proj4 proj / A c) 0))
    with 0 by (unfold Rdiv; ring).
  rewrite atan_0, degrees_0, Rplus_0_r.
  eexists; reflexivity.
Qed.

End InverseLines.

(** X9.  grid2geo maps every grid point whose easting is the false easting
    to the central meridian of its zone: the longitude returned is
    [zone * zoneWidth + origin - zoneWidth] rounded to 11 decimals (provided
    the point is not at a pole of the projection, where [cos(xi1) = 0]). *)
Theorem grid2geo_on_meridian (proj : Projection) (c : Transform.Constants)
    (zone : Z) (northing : R) :
  Transform.load proj = Ok c -> valid_config proj ->
  cos (gs_xi1 c ((northing - proj3 proj) / proj4 proj / Transform.A c) 0)
  <> 0 ->
  exists lat,
    Transform.grid2geo proj c zone (proj2 proj) northing
    = Ok (lat, Py.round (IZR zone * proj5 proj + proj6 proj - proj5 proj) 11).
Proof.
  intros Hl Hv; apply grid2geo_false_easting; assumption.
Qed.

Lemma grid2geo_on_meridian_witness :
  exists c lat,
    Transform.load grs80 = Ok c
    /\ Transform.grid2geo grs80 c 55 500000 10000000
       = Ok (lat, Py.round (55 * 6 + -177 - 6) 11).
Proof.
  destruct grs80_loads as [c Hc].
  assert (Hcos : cos (gs_xi1 c ((10000000 - proj3 grs80) / proj4 grs80
                                / Transform.A c) 0) <> 0).
  { change (proj3 grs80) with 10000000.
    replace ((10000000 - 10000000) / proj4 grs80 / Transform.A c) with 0
      by (unfold Rdiv; ring).
    rewrite gs_xi1_equator, cos_0; lra. }
  destruct (grid2geo_on_meridian grs80 c 55 10000000 Hc grs80_valid Hcos)
    as [lat Hg].
  exists c, lat; split; [exact Hc | exact Hg].
Defined.

(** X10.  grid2geo maps every grid point whose northing is the false
    northing to the equator: the latitude returned is exactly 0, in every
    zone up to a million in magnitude and at every easting whose grid ratio
    keeps the hyperbolic functions below the largest double. *)
Theorem grid2geo_on_equator (proj : Projection) (c : Transform.Constants)
    (zone : Z) (easting : R) :
  Transform.load proj = Ok c -> valid_config proj ->
  (- 1000000 <= zone <= 1000000)%Z ->
  overflow_free c 0 ((easting - proj2 proj) / proj4 proj / Transform.A c) ->
  exists long,
    Transform.grid2geo proj c zone easting (proj3 proj) = Ok (0, long).
Proof.
  intros Hl Hv _ _; apply grid2geo_false_northing; assumption.
Qed.

Lemma grid2geo_on_equator_witness :
  exists c long,
    Transform.load grs80 = Ok c
    /\ Transform.grid2geo grs80 c 55 123456 10000000 = Ok (0, long).
Proof.
  destruct grs80_loads as [c Hc].
  assert (He : Rabs (123456 - 500000) <= 390000)
    by (rewrite Rabs_left by lra; lra).
  assert (Hn : Rabs (10000000 - 10000000) <= 5000000)
    by (rewrite Rabs_right by lra; lra).
  destruct (grs80_grid_ratios c 123456 10000000 Hc He Hn) as [_ Hfree].
  cbv zeta in Hfree.
  replace ((10000000 - proj3 grs80) / proj4 grs80 / Transform.A c) with 0
    in Hfree by (change (proj3 grs80) with 10000000; unfold Rdiv; ring).
  assert (Hz : (- 1000000 <= 55 <= 1000000)%Z) by lia.
  destruct (grid2geo_on_equator grs80 c 55 123456 Hc grs80_valid Hz Hfree)
    as [long Hg].
  exists c, long; split; [exact Hc | exact Hg].
Defined.

(** X11.  Equator round trip.  When the false northing is unchanged by
    rounding to 5 decimals, geo2grid followed by grid2geo takes every point
    of the equator back to latitude exactly 0. *)
Theorem equator_round_trip (proj : Projection) (c : Transform.Constants)
    (long : R) :
  Transform.load proj = Ok c -> valid_config proj ->
  Py.round (proj3 proj) 5 = proj3 proj ->
  exists zone e n long',
    Transform.geo2grid proj c 0 long = Ok (zone, e, n)
    /\ Transform.grid2geo proj c zone e n = Ok (0, long').
Proof.
  intros Hl Hv Hround.
  pose proof (geo2grid_value proj c Hl Hv 0 long) as Hg; cbv zeta in Hg.
  assert (E0 : Py.radians 0 = 0) by (apply radians_0; reflexivity).
  rewrite E0, tan_0, conformal_tan_0, gs_forward_xi_equator, tm_xi_equator
    in Hg.
  replace (proj4 proj * (Transform.A c * 0) + proj3 proj) with (proj3 proj)
    in Hg by ring.
  rewrite Hround in Hg.
  match type of Hg with
  | _ = Ok (?z, ?e, _) =>
      destruct (grid2geo_false_northing proj c Hl Hv z e) as [long' Hi];
      exists z, e, (proj3 proj), long'
  end.
  split; assumption.
Qed.

Lemma equator_round_trip_witness :
  exists c zone e n long',
    Transform.load grs80 = Ok c
    /\ Transform.geo2grid grs80 c 0 149 = Ok (zone, e, n)
    /\ Transform.grid2geo grs80 c zone e n = Ok (0, long').
Proof.
  destruct grs80_loads as [c Hc].
  assert (Hround : Py.round (proj3 grs80) 5 = proj3 grs80)
    by apply (round_integer 10000000).
  destruct (equator_round_trip grs80 c 149 Hc grs80_valid Hround)
    as (zone & e & n & long' & H1 & H2).
  exists c, zone, e, n, long'; repeat split; assumption.
Defined.

(** ** Angles *)

Lemma radians_degrees (r : R) : Py.radians (Py.degrees r) = r.
Proof.
  unfold Py.degrees, Py.radians.
  pose proof PI_RGT_0; field; lra.
Qed.

Lemma atan2_right (y x : R) : 0 < x -> Transform.atan2 y x = atan (y / x).
Proof.
  intros Hx; unfold Transform.atan2.
  destruct (Rlt_dec 0 x) as [_ | H]; [reflexivity | contradiction].
Qed.

Lemma atan2_upper_left (y x : R) :
  x < 0 -> 0 <= y -> Transform.atan2 y x = atan (y / x) + PI.
Proof.
  intros Hx Hy; unfold Transform.atan2.
  destruct (Rlt_dec 0 x) as [H | _]; [lra |].
  destruct (Rlt_dec x 0) as [_ | H]; [| contradiction].
  destruct (Rle_dec 0 y) as [_ | H]; [reflexivity | contradiction].
Qed.

Lemma atan2_lower_left (y x : R) :
  x < 0 -> y < 0 -> Transform.atan2 y x = atan (y / x) - PI.
Proof.
  intros Hx Hy; unfold Transform.atan2.
  destruct (Rlt_dec 0 x) as [H | _]; [lra |].
  destruct (Rlt_dec x 0) as [_ | H]; [| contradiction].
  destruct (Rle_dec 0 y) as [H | _]; [lra | reflexivity].
Qed.

Lemma atan2_up (y : R) : 0 < y -> Transform.atan2 y 0 = PI / 2.
Proof.
  intros Hy; unfold Transform.atan2.
  destruct (Rlt_dec 0 0) as [H | _]; [lra |].
  destruct (Rlt_dec 0 y) as [_ | H]; [reflexivity | contradiction].
Qed.

Lemma atan2_down (y : R) : y < 0 -> Transform.atan2 y 0 = - (PI / 2).
Proof.
  intros Hy; unfold Transform.atan2.
  destruct (Rlt_dec 0 0) as [H | _]; [lra |].
  destruct (Rlt_dec 0 y) as [H | _]; [lra |].
  destruct (Rlt_dec y 0) as [_ | H]; [reflexivity | contradiction].
Qed.

Lemma sqrt_sum_scaled (x w : R) :
  0 < x -> sqrt (x ^ 2 + (x * w) ^ 2) = x * sqrt (1 + w ^ 2).
Proof.
  intros Hx.
  replace (x ^ 2 + (x * w) ^ 2) with ((x * w) ^ 2 + x ^ 2) by ring.
  apply sqrt_scaled; exact Hx.
Qed.

(** The direction [atan2] returns is that of the point itself. *)
Lemma atan2_direction (x y : R) :
  0 < x ^ 2 + y ^ 2 ->
  cos (Transform.atan2 y x) = x / sqrt (x ^ 2 + y ^ 2)
  /\ sin (Transform.atan2 y x) = y / sqrt (x ^ 2 + y ^ 2).
Proof.
  intros Hp.
  pose proof (sqrt_lt_R0 _ Hp) as Hsp.
  destruct (Rtotal_order x 0) as [Hneg | [Hzero | Hpos]].
  - (* left half plane: mirror the point through the origin *)
    set (w := y / x).
    assert (Hy : y = (- x) * (- w)) by (unfold w; field; lra).
    pose proof (sqrt_1_sq_pos w) as Hr.
    assert (Esq : sqrt (x ^ 2 + y ^ 2) = - x * sqrt (1 + w ^ 2)).
    { rewrite Hy.
      replace (x ^ 2 + (- x * - w) ^ 2) with ((- x) ^ 2 + (- x * w) ^ 2)
        by ring.
      apply sqrt_sum_scaled; lra. }
    assert (Hcs : cos (atan w) = 1 / sqrt (1 + w ^ 2)
                  /\ sin (atan w) = w / sqrt (1 + w ^ 2)).
    { rewrite cos_atan, sin_atan.
      replace (Rsqr w) with (w ^ 2) by (unfold Rsqr; ring).
      split; reflexivity. }
    destruct Hcs as [Hcos Hsin].
    destruct (Rle_dec 0 y) as [Hy0 | Hy0].
    + rewrite atan2_upper_left by lra; fold w.
      rewrite neg_cos, neg_sin, Hcos, Hsin, Esq.
      split; [field; lra |].
      unfold w in *; field; lra.
    + rewrite atan2_lower_left by lra; fold w.
      rewrite cos_minus, sin_minus, cos_PI, sin_PI, Hcos, Hsin, Esq.
      split; [field; lra |].
      unfold w in *; field; lra.
  - subst x.
    replace (0 ^ 2 + y ^ 2) with (y * y) in * by ring.
    destruct (Rtotal_order y 0) as [Hyn | [Hy0 | Hyp]].
    + rewrite atan2_down by lra.
      rewrite cos_neg, sin_neg, cos_PI2, sin_PI2.
      replace (y * y) with (- y * - y) by ring.
      rewrite sqrt_square by lra.
      split; field; lra.
    + subst y; lra.
    + rewrite atan2_up by lra.
      rewrite cos_PI2, sin_PI2, sqrt_square by lra.
      split; field; lra.
  - set (w := y / x).
    assert (Hy : y = x * w) by (unfold w; field; lra).
    pose proof (sqrt_1_sq_pos w) as Hr.
    rewrite atan2_right by lra; fold w.
    rewrite cos_atan, sin_atan.
    replace (Rsqr w) with (w ^ 2) by (unfold Rsqr; ring).
    rewrite Hy at 1 3.
    rewrite sqrt_sum_scaled by lra.
    split; [field; lra |].
    unfold w in *; field; lra.
Qed.

(** ** Geocentric conversions *)

Lemma load_ecc2sq (proj : Projection) (c : Transform.Constants) :
  Transform.load proj = Ok c ->
  Transform.ecc2sq c = Transform.ecc1sq c / (1 - Transform.ecc1sq c)
  /\ Transform.n2 c = Transform.n c ^ 2.
Proof.
  unfold Transform.load, Transform.A_of, Py.div, Py.sqrt.
  repeat match goal with
         | |- context [if ?d then _ else _] => destruct d; cbn [bind]
         end;
    try discriminate.
  intros H; injection H as <-; cbn.
  split; reflexivity.
Qed.

Section Geocentric.

Import Transform.

Variables (proj : Projection) (c : Constants).
Hypothesis Hload : load proj = Ok c.
Hypothesis Hvalid : valid_config proj.

Lemma geocentric_facts :
  0 < ecc1sq c < 1 /\ 0 < semi_maj c /\ semi_maj c = proj0 proj
  /\ ecc1 c ^ 2 = ecc1sq c
  /\ semi_min c ^ 2 / semi_maj c ^ 2 = 1 - ecc1sq c
  /\ 1 + ecc2sq c = / (1 - ecc1sq c)
  /\ 0 < semi_min c.
Proof.
  destruct Hvalid as (Ha & Hi & _ & _).
  destruct (load_ellipsoid proj c Hload Hi) as (He & _ & Hsq & _ & Hf).
  destruct (load_fields proj c Hload) as (_ & Em & Eb & Ee & _).
  destruct (load_ecc2sq proj c Hload) as (E2 & _).
  assert (Hratio : semi_min c ^ 2 / semi_maj c ^ 2 = 1 - ecc1sq c)
    by (rewrite Eb, Em, Ee; field; lra).
  assert (Hsecond : 1 + ecc2sq c = / (1 - ecc1sq c))
    by (rewrite E2; field; lra).
  assert (Hb : 0 < semi_min c)
    by (rewrite Eb; apply Rmult_lt_0_compat; lra).
  repeat split; assumption || lra.
Qed.

(** llh2xyz in terms of the module's own constants. *)
Lemma llh2xyz_geodetic (lat long h : R) :
  let phi := Py.radians lat in
  let lam := Py.radians long in
  let nu := prime_vertical c phi in
  llh2xyz proj c lat long h
  = Ok ((nu + h) * cos phi * cos lam,
        (nu + h) * cos phi * sin lam,
        ((1 - ecc1sq c) * nu + h) * sin phi).
Proof.
  intros phi lam nu.
  destruct geocentric_facts as (_ & _ & Em & Hsq & Hratio & _).
  rewrite (llh2xyz_value proj c Hload Hvalid).
  fold phi lam.
  unfold nu, prime_vertical.
  rewrite <- Em, Hratio, Hsq; reflexivity.
Qed.

Lemma xyz2llh_finish_value (p lat long : R) :
  - (PI / 2) < lat < PI / 2 ->
  xyz2llh_finish c p lat long
  = Ok (Py.degrees lat, Py.degrees long,
        p / cos lat - prime_vertical c lat).
Proof.
  intros Hlat.
  destruct geocentric_facts as (He & _).
  pose proof (curvature_arg_pos (ecc1sq c) lat He) as Hpos.
  assert (Hcos : 0 < cos lat) by (apply cos_gt_0; lra).
  unfold xyz2llh_finish, prime_vertical.
  rewrite sqrt_ok by lra; cbn [bind].
  rewrite div_ok by (apply Rgt_not_eq, sqrt_lt_R0; lra); cbn [bind].
  rewrite div_ok by lra; cbn [bind].
  reflexivity.
Qed.

(** What the loop guarantees about the latitude it hands over. *)
Lemma xyz2llh_while_post (z p : R) (Hp : 0 < p) (fuel : nat) :
  forall lat ic r,
    xyz2llh_while c fuel z p lat ic = Some (Ok r) ->
    (Rabs ic <= 1e-10 /\ r = lat)
    \/ exists r', r = bowring c z p r' /\ Rabs (r' - r) <= 1e-10.
Proof.
  induction fuel as [| k IH]; intros lat ic r H.
  - simpl in H.
    destruct (Rgt_dec (Rabs ic) 1e-10) as [G | G]; [discriminate |].
    injection H as <-; left; split; [lra | reflexivity].
  - destruct (Rle_dec (Rabs ic) 1e-10) as [Hic | Hic].
    + rewrite (xyz2llh_while_exit c z p (S k) lat ic Hic) in H.
      injection H as <-; left; split; [assumption | reflexivity].
    + rewrite (xyz2llh_while_step proj c Hload Hvalid z p Hp k lat ic)
        in H by lra.
      destruct (IH _ _ _ H) as [[Hstep ->] | Hex];
        [| right; exact Hex].
      right; exists lat; split; [reflexivity | exact Hstep].
Qed.

End Geocentric.

(** ** Small angles *)

(** Cubic and quadratic bounds of sine and cosine near 0. *)
Lemma fact_7 : INR (fact 7) = 5040.
Proof.
  rewrite INR_IZR_INZ; reflexivity.
Qed.

Lemma sin_cubic (a : R) : 0 <= a <= 1 -> a - a ^ 3 / 6 <= sin a.
Proof.
  intros Ha.
  pose proof PI2_3_2 as Hpi.
  destruct (SIN a) as [Hlb _]; [lra | lra |].
  apply Rle_trans with (sin_lb a); [| exact Hlb].
  unfold sin_lb, sin_approx, sum_f_R0, sin_term.
  replace (2 * 3 + 1)%nat with 7%nat by reflexivity.
  replace (2 * 2 + 1)%nat with 5%nat by reflexivity.
  replace (2 * 1 + 1)%nat with 3%nat by reflexivity.
  replace (2 * 0 + 1)%nat with 1%nat by reflexivity.
  rewrite fact_7.
  replace (INR (fact 5)) with 120 by (simpl; ring).
  replace (INR (fact 3)) with 6 by (simpl; ring).
  replace (INR (fact 1)) with 1 by (simpl; ring).
  assert (H2 : 0 <= a ^ 2 <= 1) by nra.
  assert (H5 : 0 <= a ^ 5).
  { apply pow_le; lra. }
  assert (H7 : a ^ 7 = a ^ 5 * a ^ 2) by ring.
  assert (H75 : a ^ 7 <= a ^ 5) by nra.
  simpl ((-1) ^ _).
  lra.
Qed.

Lemma sin_linear (a : R) : 0 <= a -> sin a <= a.
Proof.
  intros [Ha | <-]; [left; apply sin_lt_x; exact Ha | rewrite sin_0; lra].
Qed.

Lemma cos_quadratic (a : R) : 0 <= a <= 1 -> 1 - a ^ 2 / 2 <= cos a.
Proof.
  intros Ha.
  pose proof PI2_3_2 as Hpi.
  replace a with (2 * (a / 2)) at 2 by field.
  rewrite cos_2a_sin.
  assert (Hs : sin (a / 2) <= a / 2) by (apply sin_linear; lra).
  assert (H0 : 0 <= sin (a / 2)) by (apply sin_ge_0; lra).
  nra.
Qed.

(** An arctangent lies below every small angle whose cubic sine bound
    exceeds the argument. *)
Lemma atan_below (u w : R) :
  0 <= w <= 1 -> u <= w - w ^ 3 / 6 -> atan u <= w.
Proof.
  intros Hw Hu.
  pose proof PI2_3_2 as Hpi.
  rewrite <- (atan_tan w) by lra.
  apply atan_mono.
  apply Rle_trans with (sin w).
  { apply Rle_trans with (w - w ^ 3 / 6); [exact Hu |].
    apply sin_cubic; lra. }
  assert (Hc : 0 < cos w) by (apply cos_gt_0; lra).
  assert (Hc1 : cos w <= 1) by (destruct (COS_bound w); lra).
  assert (Hs : 0 <= sin w) by (apply sin_ge_0; lra).
  unfold tan.
  apply div_lower; [exact Hc | nra].
Qed.

(** An arctangent lies above every small angle [w] with
    [w (1 + w^2)] below the argument. *)
Lemma atan_above (u w : R) :
  0 <= w <= / 10 -> w * (1 + w ^ 2) <= u -> w <= atan u.
Proof.
  intros Hw Hu.
  pose proof PI2_3_2 as Hpi.
  rewrite <- (atan_tan w) at 1 by lra.
  apply atan_mono.
  apply Rle_trans with (w * (1 + w ^ 2)); [| exact Hu].
  assert (Hc : 1 - w ^ 2 / 2 <= cos w) by (apply cos_quadratic; lra).
  assert (Hs : sin w <= w) by (apply sin_linear; lra).
  assert (Hc0 : 0 < cos w) by (apply cos_gt_0; lra).
  assert (Hw2 : 0 <= w ^ 2 <= / 100) by nra.
  unfold tan.
  apply Rmult_le_reg_r with (cos w); [exact Hc0 |].
  replace (sin w / cos w * cos w) with (sin w) by (field; lra).
  apply Rle_trans with w; [exact Hs |].
  assert (Hprod : 1 <= (1 + w ^ 2) * (1 - w ^ 2 / 2)) by nra.
  assert (Hle : (1 + w ^ 2) * (1 - w ^ 2 / 2) <= (1 + w ^ 2) * cos w).
  { apply Rmult_le_compat_l; lra. }
  nra.
Qed.

(** ** The latitude loop of xyz2llh *)

Section Loop.

Import Transform.

Variables (proj : Projection) (c : Constants).
Hypothesis Hload : load proj = Ok c.
Hypothesis Hvalid : valid_config proj.

(** No pass of the loop raises. *)
Lemma xyz2llh_while_no_raise (z p : R) (Hp : 0 < p) (fuel : nat) :
  forall lat ic e, xyz2llh_while c fuel z p lat ic <> Some (Raise e).
Proof.
  induction fuel as [| k IH]; intros lat ic e.
  - simpl.
    destruct (Rgt_dec (Rabs ic) 1e-10) as [G | G]; discriminate.
  - destruct (Rle_dec (Rabs ic) 1e-10) as [Hic | Hic].
    + rewrite (xyz2llh_while_exit c z p (S k) lat ic Hic); discriminate.
    + rewrite (xyz2llh_while_step proj c Hload Hvalid z p Hp k lat ic)
        by lra.
      apply IH.
Qed.

(** Whatever the number of passes allowed, xyz2llh is either still in its
    loop or has returned with the tolerance met. *)
Lemma xyz2llh_outcome (x y z : R) (fuel : nat) :
  in_double_range x -> in_double_range y -> 0 < x ^ 2 + y ^ 2 ->
  xyz2llh c fuel x y z = None
  \/ exists r r',
       - (PI / 2) < r < PI / 2
       /\ r = bowring c z (sqrt (x ^ 2 + y ^ 2)) r'
       /\ Rabs (r' - r) <= 1e-10
       /\ xyz2llh c fuel x y z
          = Some (Ok (Py.degrees r, Py.degrees (atan2 y x),
                      sqrt (x ^ 2 + y ^ 2) / cos r - prime_vertical c r)).
Proof.
  intros Hx Hy Hpos.
  pose proof (sqrt_lt_R0 _ Hpos) as Hp.
  unfold xyz2llh.
  rewrite xyz2llh_init_ok by assumption.
  set (p := sqrt (x ^ 2 + y ^ 2)) in *.
  destruct (xyz2llh_while c fuel z p _ 1) as [[r | e] |] eqn:Hw.
  - right.
    destruct (xyz2llh_while_post proj c Hload Hvalid z p Hp fuel _ _ _ Hw)
      as [[Hone _] | (r' & Er & Hstep)].
    { rewrite Rabs_R1 in Hone; lra. }
    assert (Hr : - (PI / 2) < r < PI / 2)
      by (rewrite Er; apply atan_range).
    exists r, r'; repeat split; try assumption; try apply Hr.
    rewrite (xyz2llh_finish_value proj c Hload Hvalid p r _ Hr).
    reflexivity.
  - exfalso.
    exact (xyz2llh_while_no_raise z p Hp fuel _ _ _ Hw).
  - left; reflexivity.
Qed.

(** With [PI / 1e-10] passes or more the loop has ended. *)
Lemma xyz2llh_returns (x y z : R) (fuel : nat) :
  in_double_range x -> in_double_range y -> 0 < x ^ 2 + y ^ 2 ->
  40000000000 <= INR fuel ->
  xyz2llh c fuel x y z <> None.
Proof.
  intros Hx Hy Hpos Hfuel.
  pose proof (sqrt_lt_R0 _ Hpos) as Hp.
  assert (Hcap : PI <= INR fuel * 1e-10) by (pose proof PI_4; lra).
  destruct (xyz2llh_while_terminates proj c Hload Hvalid
              z (sqrt (x ^ 2 + y ^ 2)) Hp fuel
              (atan (z * (1 + ecc2sq c) / sqrt (x ^ 2 + y ^ 2))) 1
              (atan_range _) Hcap) as (r & Hr & Hw).
  unfold xyz2llh.
  rewrite xyz2llh_init_ok by assumption.
  rewrite Hw; discriminate.
Qed.

End Loop.

(** The GRS80 ellipsoid in numbers. *)
Lemma grs80_ellipsoid (c : Transform.Constants) :
  Transform.load grs80 = Ok c ->
  Transform.semi_maj c = 6378137
  /\ 0.006694 <= Transform.ecc1sq c <= 0.0066947
  /\ 0 < Transform.ecc2sq c <= 0.01.
Proof.
  intros Hl.
  destruct (load_fields grs80 c Hl) as (Ef & Em & _ & Ee & _).
  destruct (load_ecc2sq grs80 c Hl) as (E2 & _).
  cbn [proj0 proj1 grs80] in Ef, Em.
  assert (Hf : 0.0033528 <= Transform.f c <= 0.00335282).
  { assert (E : Transform.f c * 298.257222101 = 1)
      by (rewrite Ef; field; lra).
    lra. }
  assert (He : 0.006694 <= Transform.ecc1sq c <= 0.0066947)
    by (rewrite Ee; nra).
  split; [exact Em |].
  split; [exact He |].
  assert (E : Transform.ecc2sq c * (1 - Transform.ecc1sq c)
              = Transform.ecc1sq c) by (rewrite E2; field; lra).
  nra.
Qed.

(** Near the equator, 42.7 km from the axis and 5 mm above the equatorial
    plane, one pass of the loop raises the latitude by between 3e-8 and
    1.2e-7 radian. *)
Lemma grs80_slow_pass (c : Transform.Constants) (l : R) :
  Transform.load grs80 = Ok c ->
  0 <= l <= 2e-4 ->
  l + 3e-8 <= bowring c 0.005 42700 l <= l + 1.2e-7.
Proof.
  intros Hl Hrange.
  destruct (grs80_ellipsoid c Hl) as (Ea & He & _).
  assert (Hs1 : sin l <= l) by (apply sin_linear; lra).
  assert (Hl3 : 0 <= l ^ 3 <= 1e-7 * l).
  { assert (0 <= l ^ 2 <= 1e-7) by nra.
    replace (l ^ 3) with (l ^ 2 * l) by ring; nra. }
  assert (Hs2 : l - l ^ 3 / 6 <= sin l) by (apply sin_cubic; lra).
  assert (Hs0 : 0 <= sin l) by lra.
  assert (Hsq : sin l ^ 2 <= 1e-7).
  { replace (sin l ^ 2) with (sin l * sin l) by ring.
    apply Rle_trans with (2e-4 * 2e-4); [| lra].
    apply Rmult_le_compat; lra. }
  set (d := 1 - Transform.ecc1sq c * sin l ^ 2).
  assert (Hd : 1 - 1e-9 <= d <= 1).
  { unfold d; assert (0 <= sin l ^ 2) by apply pow2_ge_0; nra. }
  assert (Hr1 : sqrt d <= 1).
  { rewrite <- sqrt_1; apply sqrt_le_1_alt; lra. }
  assert (Hr0 : 1 - 1e-9 <= sqrt d).
  { apply Rle_trans with d; [lra |].
    rewrite <- (sqrt_square d) at 1 by lra.
    apply sqrt_le_1_alt.
    assert (0 <= d) by lra; nra. }
  assert (Hnu : 6378137 <= prime_vertical c l <= 6378137.1).
  { unfold prime_vertical; fold d; rewrite Ea.
    split.
    - apply div_lower; [lra | nra].
    - apply div_upper; [lra | nra]. }
  set (nu := prime_vertical c l) in *.
  assert (Hne : 42695 <= nu * Transform.ecc1sq c <= 42699.8) by nra.
  set (k := nu * Transform.ecc1sq c) in *.
  assert (Hks : 0.9999999 * (42695 * l) <= k * sin l <= 42699.8 * l).
  { split.
    - apply Rle_trans with (42695 * sin l); [nra |].
      apply Rmult_le_compat_r; lra.
    - apply Rle_trans with (k * l);
        [apply Rmult_le_compat_l; lra | apply Rmult_le_compat_r; lra]. }
  unfold bowring; fold nu; fold k.
  split.
  - apply atan_above; [lra |].
    set (w := l + 3e-8).
    assert (Hw : 0 <= w <= 3e-4) by (unfold w; lra).
    assert (Hw3 : w * w ^ 2 <= 1e-7 * w).
    { assert (H2 : 0 <= w ^ 2 <= 1e-7) by nra.
      rewrite (Rmult_comm w).
      apply Rmult_le_compat_r; lra. }
    apply div_lower; [lra |].
    unfold w in *; nra.
  - apply atan_below; [lra |].
    set (w := l + 1.2e-7).
    assert (Hw : 0 <= w <= 3e-4) by (unfold w; lra).
    assert (Hw3 : w ^ 3 <= 1e-7 * w).
    { assert (0 <= w ^ 2 <= 1e-7) by nra.
      replace (w ^ 3) with (w ^ 2 * w) by ring; nra. }
    apply div_upper; [lra |].
    unfold w in *; nra.
Qed.

(** As long as the latitude stays below 2e-4 radian the loop goes on: the
    fuel runs out before the tolerance is met. *)
Lemma grs80_slow_loop (c : Transform.Constants) :
  Transform.load grs80 = Ok c ->
  forall (fuel : nat) (l ic : R),
    0 <= l -> l + INR fuel * 1.2e-7 <= 2e-4 -> 1e-10 < Rabs ic ->
    Transform.xyz2llh_while c fuel 0.005 42700 l ic = None.
Proof.
  intros Hl.
  assert (Hp : 0 < 42700) by lra.
  induction fuel as [| k IH]; intros l ic Hl0 Hcap Hic.
  - simpl.
    destruct (Rgt_dec (Rabs ic) 1e-10) as [_ | G]; [reflexivity | lra].
  - rewrite S_INR in Hcap.
    assert (Hk : 0 <= INR k) by apply pos_INR.
    assert (Hrange : 0 <= l <= 2e-4) by nra.
    destruct (grs80_slow_pass c l Hl Hrange) as [Hlo Hhi].
    rewrite (xyz2llh_while_step grs80 c Hl grs80_valid 0.005 42700 Hp k l ic)
      by exact Hic.
    apply IH; [lra | nra |].
    rewrite Rabs_left by lra; lra.
Qed.

Lemma INR_1000 : INR 1000 = 1000.
Proof.
  rewrite INR_IZR_INZ; reflexivity.
Qed.

(** C4, counterexample.  At the point [(42700, 0, 0.005)], 42.7 km from the
    polar axis and 5 mm above the equatorial plane, xyz2llh is still in its
    loop after 1000 passes: every one of them moves the latitude by more
    than 3e-8 radian, far above the 1e-10 tolerance.  The loop simply goes
    on, and however many passes are allowed the function never signals an
    error: there is no iteration cap and no NonConvergence. *)
Lemma xyz2llh_loop_no_signal :
  exists c,
    Transform.load grs80 = Ok c
    /\ Transform.xyz2llh c 1000 42700 0 0.005 = None
    /\ forall fuel e,
         Transform.xyz2llh c fuel 42700 0 0.005 <> Some (Raise e).
Proof.
  destruct grs80_loads as [c Hc].
  assert (Hx : in_double_range 42700)
    by (right; rewrite Rabs_right by lra; lra).
  assert (Hy : in_double_range 0) by (left; reflexivity).
  assert (Hpos : 0 < 42700 ^ 2 + 0 ^ 2) by lra.
  exists c; split; [exact Hc |].
  split.
  - destruct (grs80_ellipsoid c Hc) as (_ & _ & H2).
    unfold Transform.xyz2llh.
    rewrite xyz2llh_init_ok by assumption.
    replace (42700 ^ 2 + 0 ^ 2) with (42700 * 42700) by ring.
    rewrite sqrt_square by lra.
    rewrite (grs80_slow_loop c Hc 1000); [reflexivity | | |].
    + rewrite <- atan_0; apply atan_mono.
      apply div_lower; [lra | nra].
    + rewrite INR_1000.
      assert (Hinit : atan (0.005 * (1 + Transform.ecc2sq c) / 42700)
                      <= 2e-7).
      { apply atan_below; [lra |].
        apply div_upper; [lra | nra]. }
      lra.
    + rewrite Rabs_R1; lra.
  - intros fuel e.
    destruct (xyz2llh_outcome grs80 c Hc grs80_valid 42700 0 0.005 fuel
                Hx Hy Hpos) as [H | (r & r' & _ & _ & _ & H)];
      rewrite H; discriminate.
Qed.

(** C4, amended.  The latitude loop of xyz2llh has no iteration cap and the
    function no NonConvergence error: off the polar axis (and with [x], [y]
    in the range where their squares neither overflow nor underflow),
    whatever the number of passes allowed, xyz2llh is either still in its
    loop or has returned, and it never raises.  It returns only when the
    last step is within 1e-10 radian: the latitude returned is
    [degrees(r)] for an iterate [r] that is the image under the loop map of
    an iterate [r'] with [|r' - r| <= 1e-10] (and, clear of the axis, the
    height returned is [p / cos r - nu(r)]).  In exact arithmetic this
    happens within 40000000000 passes, because the iterates are monotone
    and stay strictly between the poles. *)
Theorem xyz2llh_terminates (proj : Projection) (c : Transform.Constants)
    (x y z : R) :
  Transform.load proj = Ok c -> valid_config proj ->
  in_double_range x -> in_double_range y -> 0 < x ^ 2 + y ^ 2 ->
  let p := sqrt (x ^ 2 + y ^ 2) in
  (forall fuel,
     Transform.xyz2llh c fuel x y z = None
     \/ exists r r' long h,
          Transform.xyz2llh c fuel x y z
          = Some (Ok (Py.degrees r, long, h))
          /\ r = bowring c z p r'
          /\ Rabs (r' - r) <= 1e-10
          /\ (clear_of_axis x y z -> h = p / cos r - prime_vertical c r))
  /\ (forall fuel,
        40000000000 <= INR fuel ->
        Transform.xyz2llh c fuel x y z <> None).
Proof.
  intros Hl Hv Hx Hy Hpos p.
  split.
  - intros fuel.
    destruct (xyz2llh_outcome proj c Hl Hv x y z fuel Hx Hy Hpos)
      as [H | (r & r' & _ & Er & Hstep & H)]; [left; exact H | right].
    exists r, r'; eexists; eexists.
    split; [exact H |].
    split; [exact Er |].
    split; [exact Hstep | intros _; reflexivity].
  - intros fuel Hfuel.
    apply (xyz2llh_returns proj c Hl Hv); assumption.
Qed.

Lemma xyz2llh_terminates_witness :
  exists c fuel r r' long h,
    Transform.load grs80 = Ok c
    /\ Transform.xyz2llh c fuel 3 4 5 = Some (Ok (Py.degrees r, long, h))
    /\ r = bowring c 5 (sqrt (3 ^ 2 + 4 ^ 2)) r'
    /\ Rabs (r' - r) <= 1e-10.
Proof.
  destruct grs80_loads as [c Hc].
  assert (H3 : in_double_range 3)
    by (right; rewrite Rabs_right by lra; lra).
  assert (H4 : in_double_range 4)
    by (right; rewrite Rabs_right by lra; lra).
  assert (Hpos : 0 < 3 ^ 2 + 4 ^ 2) by lra.
  destruct (xyz2llh_terminates grs80 c 3 4 5 Hc grs80_valid H3 H4 Hpos)
    as [Hout Hret].
  destruct enough_fuel as [fuel Hfuel].
  assert (Hcap : 40000000000 <= INR fuel) by lra.
  destruct (Hout fuel) as [Hnone | (r & r' & long & h & H & Er & Hs & _)].
  - exfalso; exact (Hret fuel Hcap Hnone).
  - exists c, fuel, r, r', long, h; repeat split; assumption.
Defined.

(** ** Points on the ellipsoid and the way back *)

(** X12.  llh2xyz places every point of height 0 on the ellipsoid: the
    coordinates it returns satisfy [x^2/a^2 + y^2/a^2 + z^2/b^2 = 1] with
    [a] and [b] the semi-axes the module derived. *)
Theorem llh2xyz_on_ellipsoid (proj : Projection) (c : Transform.Constants)
    (lat long : R) :
  Transform.load proj = Ok c -> valid_config proj ->
  exists x y z,
    Transform.llh2xyz proj c lat long 0 = Ok (x, y, z)
    /\ x ^ 2 / Transform.semi_maj c ^ 2 + y ^ 2 / Transform.semi_maj c ^ 2
       + z ^ 2 / Transform.semi_min c ^ 2 = 1.
Proof.
  intros Hl Hv.
  destruct (geocentric_facts proj c Hl Hv)
    as (He & Ha & _ & _ & Hratio & _ & Hb).
  do 3 eexists; split; [apply (llh2xyz_geodetic proj c Hl Hv) |].
  set (phi := Py.radians lat); set (lam := Py.radians long).
  pose proof (curvature_arg_pos (Transform.ecc1sq c) phi He) as Hd.
  pose proof (sqrt_lt_R0 _ Hd) as Hs.
  pose proof (sqrt_sqrt _ (Rlt_le _ _ Hd)) as Hss.
  pose proof (sin2_cos2 phi) as Hp; unfold Rsqr in Hp.
  pose proof (sin2_cos2 lam) as Hm; unfold Rsqr in Hm.
  unfold prime_vertical.
  set (s := sqrt (1 - Transform.ecc1sq c * sin phi ^ 2)) in *.
  set (a := Transform.semi_maj c) in *.
  set (b := Transform.semi_min c) in *.
  assert (Hb2 : b ^ 2 = a ^ 2 * (1 - Transform.ecc1sq c)).
  { rewrite <- Hratio; field; lra. }
  replace (((1 - Transform.ecc1sq c) * (a / s) + 0) * sin phi)
    with (b ^ 2 / a ^ 2 * (a / s) * sin phi)
    by (rewrite Hratio; ring).
  replace ((a / s + 0) * cos phi * cos lam) with (a / s * cos phi * cos lam)
    by ring.
  replace ((a / s + 0) * cos phi * sin lam) with (a / s * cos phi * sin lam)
    by ring.
  assert (Hgoal : (a / s * cos phi * cos lam) ^ 2 / a ^ 2
                  + (a / s * cos phi * sin lam) ^ 2 / a ^ 2
                  + (b ^ 2 / a ^ 2 * (a / s) * sin phi) ^ 2 / b ^ 2
                  = (cos phi * cos phi
                       * (sin lam * sin lam + cos lam * cos lam)
                     + b ^ 2 / a ^ 2 * (sin phi * sin phi)) / (s * s)).
  { field; repeat split; lra. }
  rewrite Hgoal, Hm, Hss, Hratio.
  replace (cos phi * cos phi) with (1 - sin phi * sin phi) by lra.
  field; lra.
Qed.

Lemma llh2xyz_on_ellipsoid_witness :
  exists c x y z,
    Transform.load grs80 = Ok c
    /\ Transform.llh2xyz grs80 c (-35) 149 0 = Ok (x, y, z)
    /\ x ^ 2 / Transform.semi_maj c ^ 2 + y ^ 2 / Transform.semi_maj c ^ 2
       + z ^ 2 / Transform.semi_min c ^ 2 = 1.
Proof.
  destruct grs80_loads as [c Hc].
  destruct (llh2xyz_on_ellipsoid grs80 c (-35) 149 Hc grs80_valid)
    as (x & y & z & H1 & H2).
  exists c, x, y, z; repeat split; assumption.
Defined.

(** X13.  Mirroring a point in the equatorial plane: llh2xyz returns the
    same [x] and [y] and the opposite [z] for [-lat] as for [lat]. *)
Theorem llh2xyz_mirror (proj : Projection) (c : Transform.Constants)
    (lat long h : R) :
  Transform.load proj = Ok c -> valid_config proj ->
  exists x y z,
    Transform.llh2xyz proj c lat long h = Ok (x, y, z)
    /\ Transform.llh2xyz proj c (- lat) long h = Ok (x, y, - z).
Proof.
  intros Hl Hv.
  do 3 eexists; split; [apply (llh2xyz_geodetic proj c Hl Hv) |].
  rewrite (llh2xyz_geodetic proj c Hl Hv); cbv zeta.
  rewrite radians_opp.
  unfold prime_vertical.
  rewrite sin_neg, cos_neg.
  replace ((- sin (Py.radians lat)) ^ 2) with (sin (Py.radians lat) ^ 2)
    by ring.
  f_equal; f_equal; ring.
Qed.

Lemma llh2xyz_mirror_witness :
  exists c x y z,
    Transform.load grs80 = Ok c
    /\ Transform.llh2xyz grs80 c 35 149 100 = Ok (x, y, z)
    /\ Transform.llh2xyz grs80 c (- 35) 149 100 = Ok (x, y, - z).
Proof.
  destruct grs80_loads as [c Hc].
  destruct (llh2xyz_mirror grs80 c 35 149 100 Hc grs80_valid)
    as (x & y & z & H1 & H2).
  exists c, x, y, z; repeat split; assumption.
Defined.

(** X17.  Cartesian to geographic and back.  Clear of the polar axis,
    whenever xyz2llh returns [(lat, long, h)], with [lat = degrees(r)] for
    the last iterate [r] of its loop and [r'] the iterate before it, llh2xyz
    applied to that result gives back [x] and [y], whatever the loop's
    tolerance left in the latitude; only [z] carries a residual,
    [e1^2 (nu(r') sin r' - nu(r) sin r)], and [r'] and [r] are within 1e-10
    radian of each other. *)
Theorem cartesian_round_trip (proj : Projection) (c : Transform.Constants)
    (x y z : R) (fuel : nat) (lat long h : R) :
  Transform.load proj = Ok c -> valid_config proj ->
  in_double_range x -> in_double_range y -> clear_of_axis x y z ->
  Transform.xyz2llh c fuel x y z = Some (Ok (lat, long, h)) ->
  exists r r',
    lat = Py.degrees r
    /\ r = bowring c z (sqrt (x ^ 2 + y ^ 2)) r'
    /\ Rabs (r' - r) <= 1e-10
    /\ Transform.llh2xyz proj c lat long h
       = Ok (x, y,
             z + Transform.ecc1sq c
                 * (prime_vertical c r' * sin r' - prime_vertical c r * sin r)).
Proof.
  intros Hl Hv Hx Hy [Hclear _] Hret.
  assert (Hpos : 0 < x ^ 2 + y ^ 2) by lra.
  pose proof (sqrt_lt_R0 _ Hpos) as Hp.
  destruct (xyz2llh_outcome proj c Hl Hv x y z fuel Hx Hy Hpos)
    as [H | (r & r' & Hr & Er & Hstep & H)];
    set (p := sqrt (x ^ 2 + y ^ 2)) in *;
    rewrite H in Hret; [discriminate |].
  injection Hret as <- <- <-.
  exists r, r'.
  split; [reflexivity |].
  split; [exact Er |].
  split; [exact Hstep |].
  rewrite (llh2xyz_geodetic proj c Hl Hv); cbv zeta.
  rewrite !radians_degrees.
  destruct (atan2_direction x y Hpos) as [Hcos Hsin]; fold p in Hcos, Hsin.
  rewrite Hcos, Hsin.
  assert (Hcr : 0 < cos r) by (apply cos_gt_0; lra).
  assert (Htan : sin r = (z + prime_vertical c r' * Transform.ecc1sq c
                              * sin r') / p * cos r).
  { assert (Ht : tan r = (z + prime_vertical c r' * Transform.ecc1sq c
                               * sin r') / p).
    { rewrite Er at 1; unfold bowring; apply tan_atan. }
    rewrite <- Ht; unfold tan; field; lra. }
  set (nu := prime_vertical c r) in *.
  set (nu' := prime_vertical c r') in *.
  f_equal; f_equal; [f_equal |].
  + field; lra.
  + field; lra.
  + replace (((1 - Transform.ecc1sq c) * nu + (p / cos r - nu)) * sin r)
      with ((p / cos r - Transform.ecc1sq c * nu) * sin r) by ring.
    replace ((p / cos r - Transform.ecc1sq c * nu) * sin r)
      with (p * (sin r / cos r) - Transform.ecc1sq c * nu * sin r)
      by (field; lra).
    rewrite Htan at 1.
    field; lra.
Qed.

Lemma cartesian_round_trip_witness :
  exists c fuel lat long h z',
    Transform.load grs80 = Ok c
    /\ Transform.xyz2llh c fuel 3 4 5 = Some (Ok (lat, long, h))
    /\ Transform.llh2xyz grs80 c lat long h = Ok (3, 4, z').
Proof.
  destruct grs80_loads as [c Hc].
  assert (H3 : in_double_range 3)
    by (right; rewrite Rabs_right by lra; lra).
  assert (H4 : in_double_range 4)
    by (right; rewrite Rabs_right by lra; lra).
  assert (Hpos : 0 < 3 ^ 2 + 4 ^ 2) by lra.
  assert (Hclear : clear_of_axis 3 4 5).
  { split; [lra |].
    replace (3 ^ 2 + 4 ^ 2) with (5 * 5) by ring.
    rewrite sqrt_square, Rabs_right by lra; lra. }
  destruct enough_fuel as [fuel Hfuel].
  assert (Hcap : 40000000000 <= INR fuel) by lra.
  pose proof (xyz2llh_returns grs80 c Hc grs80_valid 3 4 5 fuel
                H3 H4 Hpos Hcap) as Hsome.
  destruct (xyz2llh_outcome grs80 c Hc grs80_valid 3 4 5 fuel H3 H4 Hpos)
    as [Hnone | (r & r' & _ & _ & _ & Hret)]; [contradiction |].
  destruct (cartesian_round_trip grs80 c 3 4 5 fuel _ _ _ Hc grs80_valid
              H3 H4 Hclear Hret) as (r1 & r1' & _ & _ & _ & Hback).
  exists c, fuel; do 4 eexists.
  split; [exact Hc | split; [exact Hret | exact Hback]].
Defined.

(** X18.  In the equatorial plane xyz2llh is exact: for [z = 0], off the
    polar axis, with [x] and [y] in the range where their squares neither
    overflow nor underflow, and away from the half line [y = 0], [x < 0]
    (where the sign of a zero [y] decides between 180 and -180), it returns
    after one pass of the loop latitude 0, longitude [degrees(atan2(y, x))]
    and height [p - a]. *)
Theorem xyz2llh_equatorial_plane (proj : Projection)
    (c : Transform.Constants) (x y : R) :
  Transform.load proj = Ok c -> valid_config proj ->
  in_double_range x -> in_double_range y ->
  0 < x ^ 2 + y ^ 2 ->
  0 < x \/ y <> 0 ->
  Transform.xyz2llh c 1 x y 0
  = Some (Ok (0, Py.degrees (Transform.atan2 y x),
              sqrt (x ^ 2 + y ^ 2) - Transform.semi_maj c)).
Proof.
  intros Hl Hv Hx Hy Hpos _.
  pose proof (sqrt_lt_R0 _ Hpos) as Hp.
  set (p := sqrt (x ^ 2 + y ^ 2)) in *.
  pose proof PI_RGT_0 as Hpi.
  assert (H0 : - (PI / 2) < 0 < PI / 2) by lra.
  unfold Transform.xyz2llh.
  rewrite xyz2llh_init_ok by assumption; fold p.
  replace (0 * (1 + Transform.ecc2sq c) / p) with 0 by (unfold Rdiv; ring).
  rewrite atan_0.
  assert (Hfix : bowring c 0 p 0 = 0).
  { unfold bowring; rewrite sin_0.
    replace ((0 + prime_vertical c 0 * Transform.ecc1sq c * 0) / p) with 0
      by (unfold Rdiv; ring).
    apply atan_0. }
  rewrite (xyz2llh_while_step proj c Hl Hv 0 p Hp 0 0 1)
    by (rewrite Rabs_R1; lra).
  rewrite Hfix.
  rewrite (xyz2llh_while_exit c 0 p 0 0 (0 - 0))
    by (replace (0 - 0) with 0 by ring; rewrite Rabs_R0; lra).
  rewrite (xyz2llh_finish_value proj c Hl Hv p 0 _ H0).
  rewrite degrees_0, cos_0.
  unfold prime_vertical; rewrite sin_0.
  replace (1 - Transform.ecc1sq c * 0 ^ 2) with 1 by ring.
  rewrite sqrt_1.
  do 3 f_equal; field.
Qed.

Lemma xyz2llh_equatorial_plane_witness :
  exists c,
    Transform.load grs80 = Ok c
    /\ Transform.xyz2llh c 1 3000000 (- 4000000) 0
       = Some (Ok (0, Py.degrees (Transform.atan2 (- 4000000) 3000000),
                   sqrt (3000000 ^ 2 + (- 4000000) ^ 2)
                   - Transform.semi_maj c)).
Proof.
  destruct grs80_loads as [c Hc].
  exists c; split; [exact Hc |].
  apply (xyz2llh_equatorial_plane grs80 c 3000000 (- 4000000)
           Hc grs80_valid).
  - right; rewrite Rabs_right by lra; lra.
  - right; rewrite Rabs_left by lra; lra.
  - lra.
  - left; lra.
Defined.

(** X19.  The constants the module derives at import are consistent with
    one another: [b^2 = a^2 (1 - e1^2)], [(1 + e2^2)(1 - e1^2) = 1],
    [ecc1^2 = ecc1sq], [f = 2n / (1 + n)], [e1^2 = 4n / (1 + n)^2] and
    [n2 = n^2], with [0 < n < 1] and [0 < e1 < 1]. *)
Theorem constants_consistent (proj : Projection)
    (c : Transform.Constants) :
  Transform.load proj = Ok c -> valid_config proj ->
  Transform.semi_min c ^ 2
  = Transform.semi_maj c ^ 2 * (1 - Transform.ecc1sq c)
  /\ (1 + Transform.ecc2sq c) * (1 - Transform.ecc1sq c) = 1
  /\ Transform.ecc1 c ^ 2 = Transform.ecc1sq c
  /\ Transform.f c = 2 * Transform.n c / (1 + Transform.n c)
  /\ Transform.ecc1sq c = 4 * Transform.n c / (1 + Transform.n c) ^ 2
  /\ Transform.n2 c = Transform.n c ^ 2
  /\ 0 < Transform.n c < 1
  /\ 0 < Transform.ecc1 c < 1.
Proof.
  intros Hl Hv.
  destruct (geocentric_facts proj c Hl Hv)
    as (He & Ha & _ & Hsq & Hratio & Hsecond & _).
  destruct (load_fields proj c Hl) as (_ & _ & _ & Ee & _ & En & _).
  destruct (load_ecc2sq proj c Hl) as (_ & En2).
  destruct Hv as (_ & Hi & _ & _).
  destruct (load_ellipsoid proj c Hl Hi) as (_ & He1 & _ & Hn & Hf).
  assert (Hn1 : Transform.n c < 1).
  { rewrite En.
    apply (Rmult_lt_reg_r (2 - Transform.f c)); [lra |].
    unfold Rdiv; rewrite Rmult_assoc, Rinv_l by lra; lra. }
  assert (Ef : Transform.f c = 2 * Transform.n c / (1 + Transform.n c)).
  { rewrite En; field; lra. }
  repeat split; try assumption; try lra.
  - rewrite <- Hratio; field; lra.
  - rewrite Hsecond; field; lra.
  - rewrite Ee, Ef; field; lra.
Qed.

Lemma constants_consistent_witness :
  exists c,
    Transform.load grs80 = Ok c
    /\ Transform.semi_min c ^ 2
       = Transform.semi_maj c ^ 2 * (1 - Transform.ecc1sq c)
    /\ 0 < Transform.n c < 1.
Proof.
  destruct grs80_loads as [c Hc].
  destruct (constants_consistent grs80 c Hc grs80_valid)
    as (H1 & _ & _ & _ & _ & _ & H7 & _).
  exists c; repeat split; assumption || apply H7.
Defined.

(** ** Zones from west to east *)

Lemma int_mono (x y : R) : x <= y -> (Py.int x <= Py.int y)%Z.
Proof.
  intros Hxy.
  destruct (Rle_dec 0 x) as [Hx | Hx].
  - rewrite !int_nonneg by lra; apply Zfloor_le; exact Hxy.
  - destruct (Rle_dec 0 y) as [Hy | Hy].
    + rewrite int_neg, int_nonneg by lra.
      pose proof (Zceil_bound x) as Hc.
      assert (Hc0 : (Zceil x < 1)%Z) by (apply lt_IZR; lra).
      assert (Hf0 : (0 <= Zfloor y)%Z) by (apply Zfloor_lub; exact Hy).
      lia.
    + rewrite !int_neg by lra; apply Zceil_le; exact Hxy.
Qed.

(** X20.  Zone numbers never decrease eastwards: if [long <= long'] then
    the zone geo2grid returns for [long] is at most the zone it returns for
    [long'], at any latitudes. *)
Theorem geo2grid_zone_monotone (proj : Projection)
    (c : Transform.Constants) (lat lat' long long' : R) :
  Transform.load proj = Ok c -> valid_config proj ->
  long <= long' ->
  exists zone e n zone' e' n',
    Transform.geo2grid proj c lat long = Ok (zone, e, n)
    /\ Transform.geo2grid proj c lat' long' = Ok (zone', e', n')
    /\ (zone <= zone')%Z.
Proof.
  intros Hl Hv Hlong.
  destruct (geo2grid_ok proj c Hl Hv lat long) as (e & n & _ & H).
  destruct (geo2grid_ok proj c Hl Hv lat' long') as (e' & n' & _ & H').
  exists (Py.int (zone_quotient proj long)), e, n,
    (Py.int (zone_quotient proj long')), e', n'.
  split; [exact H | split; [exact H' |]].
  apply int_mono.
  destruct Hv as (_ & _ & _ & Hw).
  unfold zone_quotient, Rdiv.
  apply Rmult_le_compat_r; [left; apply Rinv_0_lt_compat; lra | lra].
Qed.

Lemma geo2grid_zone_monotone_witness :
  exists c zone e n zone' e' n',
    Transform.load grs80 = Ok c
    /\ Transform.geo2grid grs80 c 10 (-200) = Ok (zone, e, n)
    /\ Transform.geo2grid grs80 c 20 149 = Ok (zone', e', n')
    /\ (zone <= zone')%Z.
Proof.
  destruct grs80_loads as [c Hc].
  assert (Hlong : -200 <= 149) by lra.
  destruct (geo2grid_zone_monotone grs80 c 10 20 (-200) 149 Hc grs80_valid
              Hlong) as (z & e & n & z' & e' & n' & H1 & H2 & H3).
  exists c, z, e, n, z', e', n'; repeat split; assumption.
Defined.

(** ** Hemisphere symmetry of xyz2llh *)

Lemma prime_vertical_even (c : Transform.Constants) (phi : R) :
  prime_vertical c (- phi) = prime_vertical c phi.
Proof.
  unfold prime_vertical; rewrite sin_neg.
  replace ((- sin phi) ^ 2) with (sin phi ^ 2) by ring; reflexivity.
Qed.

Lemma bowring_opp (c : Transform.Constants) (z p lat : R) :
  bowring c (- z) p (- lat) = - bowring c z p lat.
Proof.
  unfold bowring.
  rewrite prime_vertical_even, sin_neg, <- atan_opp.
  f_equal; unfold Rdiv; ring.
Qed.

Lemma degrees_opp (r : R) : Py.degrees (- r) = - Py.degrees r.
Proof.
  unfold Py.degrees; ring.
Qed.

Section Mirror.

Import Transform.

Variables (proj : Projection) (c : Constants).
Hypothesis Hload : load proj = Ok c.
Hypothesis Hvalid : valid_config proj.

Variables (z p : R).
Hypothesis Hp : 0 < p.

Lemma xyz2llh_while_mirror (fuel : nat) :
  forall lat ic ic' r,
    Rabs ic' = Rabs ic ->
    xyz2llh_while c fuel z p lat ic = Some (Ok r) ->
    xyz2llh_while c fuel (- z) p (- lat) ic' = Some (Ok (- r)).
Proof.
  induction fuel as [| k IH]; intros lat ic ic' r Habs H.
  - simpl in H.
    destruct (Rgt_dec (Rabs ic) 1e-10) as [G | G]; [discriminate |].
    injection H as <-.
    apply xyz2llh_while_exit; lra.
  - destruct (Rle_dec (Rabs ic) 1e-10) as [Hic | Hic].
    + rewrite (xyz2llh_while_exit c z p (S k) lat ic Hic) in H.
      injection H as <-.
      apply xyz2llh_while_exit; lra.
    + rewrite (xyz2llh_while_step proj c Hload Hvalid z p Hp k lat ic)
        in H by lra.
      rewrite (xyz2llh_while_step proj c Hload Hvalid (- z) p Hp k
                 (- lat) ic') by lra.
      rewrite bowring_opp.
      apply (IH (bowring c z p lat) (lat - bowring c z p lat));
        [| exact H].
      replace (- lat - - bowring c z p lat)
        with (- (lat - bowring c z p lat)) by ring.
      apply Rabs_Ropp.
Qed.

End Mirror.

(** X22.  Mirroring a point in the equatorial plane: whenever xyz2llh
    returns [(lat, long, h)] for [(x, y, z)], it returns [(-lat, long, h)]
    for [(x, y, -z)] after the same number of passes. *)
Theorem xyz2llh_mirror (proj : Projection) (c : Transform.Constants)
    (x y z : R) (fuel : nat) (lat long h : R) :
  Transform.load proj = Ok c -> valid_config proj ->
  Transform.xyz2llh c fuel x y z = Some (Ok (lat, long, h)) ->
  Transform.xyz2llh c fuel x y (- z) = Some (Ok (- lat, long, h)).
Proof.
  intros Hl Hv H.
  unfold Transform.xyz2llh in *.
  destruct (Transform.xyz2llh_init c x y z) as [[p latinit] | e] eqn:Hi;
    [| discriminate].
  destruct (xyz2llh_init_inv c x y z p latinit Hi) as [Hp _].
  rewrite (xyz2llh_init_opp c x y z p latinit Hi).
  destruct (Transform.xyz2llh_while c fuel z p latinit 1)
    as [[r | e] |] eqn:Hw; try discriminate.
  destruct (xyz2llh_while_post proj c Hl Hv z p Hp fuel _ _ _ Hw)
    as [[Hone _] | (r' & Er & _)].
  { rewrite Rabs_R1 in Hone; lra. }
  assert (Hr : - (PI / 2) < r < PI / 2)
    by (rewrite Er; apply atan_range).
  assert (Hr' : - (PI / 2) < - r < PI / 2) by lra.
  rewrite (xyz2llh_finish_value proj c Hl Hv p r _ Hr) in H.
  injection H as <- <- <-.
  rewrite (xyz2llh_while_mirror proj c Hl Hv z p Hp fuel _ 1 1 r
             eq_refl Hw).
  rewrite (xyz2llh_finish_value proj c Hl Hv p (- r) _ Hr').
  rewrite degrees_opp, cos_neg, prime_vertical_even.
  reflexivity.
Qed.

Lemma xyz2llh_mirror_witness :
  exists c fuel lat long h,
    Transform.load grs80 = Ok c
    /\ Transform.xyz2llh c fuel 3 4 5 = Some (Ok (lat, long, h))
    /\ Transform.xyz2llh c fuel 3 4 (- 5) = Some (Ok (- lat, long, h)).
Proof.
  destruct grs80_loads as [c Hc].
  assert (H3 : in_double_range 3)
    by (right; rewrite Rabs_right by lra; lra).
  assert (H4 : in_double_range 4)
    by (right; rewrite Rabs_right by lra; lra).
  assert (Hpos : 0 < 3 ^ 2 + 4 ^ 2) by lra.
  destruct enough_fuel as [fuel Hfuel].
  assert (Hcap : 40000000000 <= INR fuel) by lra.
  pose proof (xyz2llh_returns grs80 c Hc grs80_valid 3 4 5 fuel
                H3 H4 Hpos Hcap) as Hsome.
  destruct (xyz2llh_outcome grs80 c Hc grs80_valid 3 4 5 fuel H3 H4 Hpos)
    as [Hnone | (r & r' & _ & _ & _ & Hret)]; [contradiction |].
  pose proof (xyz2llh_mirror grs80 c 3 4 5 fuel _ _ _ Hc grs80_valid Hret)
    as Hm.
  exists c, fuel; do 3 eexists.
  split; [exact Hc | split; [exact Hret | exact Hm]].
Defined.


(** ** The working range of the default grid *)

(** X23.  On the working range of the GRS80 grid grid2geo always returns:
    for every zone number up to a million in magnitude, every easting within
    390 km of the false easting and every northing within 5000 km of the
    false northing, no division by zero, domain error or overflow occurs. *)
Theorem grid2geo_on_grid (c : Transform.Constants) (zone : Z)
    (easting northing : R) :
  Transform.load grs80 = Ok c ->
  (- 1000000 <= zone <= 1000000)%Z ->
  Rabs (easting - 500000) <= 390000 ->
  Rabs (northing - 10000000) <= 5000000 ->
  exists lat long,
    Transform.grid2geo grs80 c zone easting northing = Ok (lat, long).
Proof.
  intros Hl _ He Hn.
  destruct (grs80_grid_ratios c easting northing Hl He Hn) as [Hcos _].
  rewrite (grid2geo_value grs80 c Hl grs80_valid zone easting northing Hcos).
  eexists; eexists; reflexivity.
Qed.

Lemma grid2geo_on_grid_witness :
  exists c lat long,
    Transform.load grs80 = Ok c
    /\ Transform.grid2geo grs80 c 50 250000 7500000 = Ok (lat, long).
Proof.
  destruct grs80_loads as [c Hc].
  assert (Hz : (- 1000000 <= 50 <= 1000000)%Z) by lia.
  assert (He : Rabs (250000 - 500000) <= 390000)
    by (rewrite Rabs_left by lra; lra).
  assert (Hn : Rabs (7500000 - 10000000) <= 5000000)
    by (rewrite Rabs_left by lra; lra).
  destruct (grid2geo_on_grid c 50 250000 7500000 Hc Hz He Hn)
    as (lat & long & H).
  exists c, lat, long; split; [exact Hc | exact H].
Defined.

(** ** One pass of the latitude loop *)

(** X24.  One pass of the xyz2llh loop never raises off the polar axis, lands
    strictly between the poles, and is monotone: a larger latitude going in
    gives a latitude at least as large coming out. *)
Theorem xyz2llh_body_monotone (proj : Projection) (c : Transform.Constants)
    (z p l l' : R) :
  Transform.load proj = Ok c -> valid_config proj ->
  0 < p ->
  - (PI / 2) <= l -> l <= l' -> l' <= PI / 2 ->
  exists r r',
    Transform.xyz2llh_body c z p l = Ok (r, l - r)
    /\ Transform.xyz2llh_body c z p l' = Ok (r', l' - r')
    /\ - (PI / 2) < r /\ r <= r' /\ r' < PI / 2.
Proof.
  intros Hl Hv Hp H1 H2 H3.
  exists (bowring c z p l), (bowring c z p l').
  rewrite !(xyz2llh_body_ok proj c Hl Hv z p Hp).
  destruct (bowring_range c z p l) as [Hlo _].
  destruct (bowring_range c z p l') as [_ Hhi].
  repeat split; try assumption.
  apply (bowring_mono proj c Hl Hv z p Hp); assumption.
Qed.

Lemma xyz2llh_body_monotone_witness :
  exists c r r',
    Transform.load grs80 = Ok c
    /\ Transform.xyz2llh_body c 5 3 0 = Ok (r, 0 - r)
    /\ Transform.xyz2llh_body c 5 3 1 = Ok (r', 1 - r')
    /\ r <= r'.
Proof.
  destruct grs80_loads as [c Hc].
  pose proof PI2_3_2 as Hpi.
  assert (Hp : 0 < 3) by lra.
  assert (H1 : - (PI / 2) <= 0) by lra.
  assert (H2 : 0 <= 1) by lra.
  assert (H3 : 1 <= PI / 2) by lra.
  destruct (xyz2llh_body_monotone grs80 c 5 3 0 1 Hc grs80_valid Hp H1 H2 H3)
    as (r & r' & Hb & Hb' & _ & Hle & _).
  exists c, r, r'; repeat split; assumption.
Defined.

(** ** Size of the beta coefficients *)

(** X25.  For every ellipsoid with an inverse flattening of 250.5 or more
    (third flattening at most 0.002) each of the eight beta coefficients
    derived at import is at most 0.002 in magnitude. *)
Theorem beta_coefficients_small (proj : Projection)
    (c : Transform.Constants) :
  Transform.load proj = Ok c -> 250.5 <= proj1 proj ->
  Rabs (Transform.b2 c) <= 0.002 /\ Rabs (Transform.b4 c) <= 0.002
  /\ Rabs (Transform.b6 c) <= 0.002 /\ Rabs (Transform.b8 c) <= 0.002
  /\ Rabs (Transform.b10 c) <= 0.002 /\ Rabs (Transform.b12 c) <= 0.002
  /\ Rabs (Transform.b14 c) <= 0.002 /\ Rabs (Transform.b16 c) <= 0.002.
Proof.
  intros Hl Hi.
  destruct (load_fields proj c Hl) as (Ef & _ & _ & _ & _ & En & _).
  assert (Hf : 0 < Transform.f c <= 0.004).
  { assert (E : Transform.f c * proj1 proj = 1) by (rewrite Ef; field; lra).
    split; nra. }
  assert (Hn : 0 <= Transform.n c <= 0.002).
  { assert (E : Transform.f c * proj1 proj = 1) by (rewrite Ef; field; lra).
    assert (E' : Transform.n c * (2 - Transform.f c) = Transform.f c)
      by (rewrite En; field; lra).
    assert (E2 : Transform.n c * (2 * proj1 proj - 1) = 1) by nra.
    split; nra. }
  pose proof (load_beta_small proj c Hl Hn) as Hb.
  pose proof (Hb 1%nat) as B2; pose proof (Hb 2%nat) as B4.
  pose proof (Hb 3%nat) as B6; pose proof (Hb 4%nat) as B8.
  pose proof (Hb 5%nat) as B10; pose proof (Hb 6%nat) as B12.
  pose proof (Hb 7%nat) as B14; pose proof (Hb 8%nat) as B16.
  cbn [beta_term] in *.
  repeat split; assumption.
Qed.

Lemma beta_coefficients_small_witness :
  exists c,
    Transform.load grs80 = Ok c
    /\ Rabs (Transform.b2 c) <= 0.002 /\ Rabs (Transform.b16 c) <= 0.002.
Proof.
  destruct grs80_loads as [c Hc].
  assert (Hi : 250.5 <= proj1 grs80) by (cbn [proj1 grs80]; lra).
  destruct (beta_coefficients_small grs80 c Hc Hi)
    as (H2 & _ & _ & _ & _ & _ & _ & H16).
  exists c; repeat split; assumption.
Defined.
